(** * Owner/Pet API: a shallow embedding of [main.py] and [models/owner.py]

    The two process-wide dictionaries [OWNERS] and [PETS] are threaded
    through the request handlers as explicit state.  The two sources of
    non-determinism of the program, [uuid4()] and [datetime.utcnow()], are
    modelled as oracles indexed by the number of calls made so far. *)

From Stdlib Require Import List ZArith NArith String Bool Lia.
Import ListNotations.
Local Open Scope string_scope.
Local Open Scope list_scope.

(** ** Scalars *)

(** A UUID is a 128-bit number; only equality on it is ever used. *)
Definition UUID := N.
(** [datetime]: microseconds since the epoch, so that [<=] is the order of
    Python's [datetime] comparison. *)
Definition datetime := Z.
(** [date]: days since the epoch. *)
Definition date := Z.

(** ** Python dictionaries keyed by UUID

    A [dict] keeps insertion order and [PETS.values()] is read in that
    order, so a dictionary is an association list.  [set] overwrites in
    place when the key is present and appends otherwise, as [d[k] = v]
    does. *)
Module Dict.

Definition t (V : Type) := list (UUID * V).

Definition empty {V : Type} : t V := [].

Fixpoint get {V : Type} (k : UUID) (d : t V) : option V :=
  match d with
  | [] => None
  | (k', v) :: d' => if N.eqb k k' then Some v else get k d'
  end.

Definition mem {V : Type} (k : UUID) (d : t V) : bool :=
  match get k d with Some _ => true | None => false end.

Fixpoint set {V : Type} (k : UUID) (v : V) (d : t V) : t V :=
  match d with
  | [] => [(k, v)]
  | (k', v') :: d' =>
      if N.eqb k k' then (k, v) :: d' else (k', v') :: set k v d'
  end.

(** [del d[k]] for a key that is present; the keys being distinct, the
    filter drops one entry. *)
Definition del {V : Type} (k : UUID) (d : t V) : t V :=
  filter (fun kv => negb (N.eqb k (fst kv))) d.

Definition keys {V : Type} (d : t V) : list UUID := map fst d.
Definition values {V : Type} (d : t V) : list V := map snd d.
Definition items {V : Type} (d : t V) : list (UUID * V) := d.

(** The keys of a Python dictionary are pairwise distinct. *)
Definition wf {V : Type} (d : t V) : Prop := NoDup (keys d).

End Dict.

(** ** Entity schemas *)

(** Modelled from the spec: [models/pet.py] is not part of the sources.
    [PetBase] is the Pet summary embedded in an Owner; its fields are the
    ones of the example in [OwnerBase.pets] ([id], [name], [species]). *)
Record PetBase := mkPetBase {
  pb_id : UUID;
  pb_name : string;
  pb_species : string
}.

(** Modelled from the spec: [PetRead] of the missing [models/pet.py]: a
    server-generated [id], the foreign key [owner_id], the descriptive
    scalars [name] and [species], and the two timestamps. *)
Record PetRead := mkPetRead {
  pet_owner_id : UUID;
  pet_name : string;
  pet_species : string;
  pet_id : UUID;
  pet_created_at : datetime;
  pet_updated_at : datetime
}.

(** Modelled from the spec: [PetCreate] of the missing [models/pet.py]:
    a creation payload carries no [id] and no timestamps. *)
Record PetCreate := mkPetCreate {
  pc_owner_id : UUID;
  pc_name : string;
  pc_species : string
}.

(** Modelled from the spec: [PetUpdate] of the missing [models/pet.py]:
    every field is optional, [None] meaning "not supplied"; [id] and the
    timestamps cannot be supplied. *)
Record PetUpdate := mkPetUpdate {
  pu_owner_id : option UUID;
  pu_name : option string;
  pu_species : option string
}.

(** What the [pets] list of an Owner object holds at run time: entries
    validated from a client payload ([PetBase]), or the [PetRead] objects
    that the read handlers assign from [PETS]. *)
Inductive PetItem :=
| ClientPet (b : PetBase)
| StoredPet (p : PetRead).

(** [OwnerBase] / [OwnerCreate]. *)
Record OwnerCreate := mkOwnerCreate {
  oc_first_name : string;
  oc_last_name : string;
  oc_phone : string;
  oc_email : option string;
  oc_birth_date : option date;
  oc_pets : list PetBase
}.

(** [OwnerRead]: the fields of [OwnerBase], then [id], [created_at] and
    [updated_at]. *)
Record OwnerRead := mkOwnerRead {
  first_name : string;
  last_name : string;
  phone : string;
  email : option string;
  birth_date : option date;
  pets : list PetItem;
  owner_id : UUID;
  created_at : datetime;
  updated_at : datetime
}.

(** A field of an update payload: left out of the request body, or
    supplied.  All five fields of [OwnerUpdate] are [Optional[...]], so a
    supplied value may be JSON [null], which is [Supplied None];
    [model_dump(exclude_unset=True)] keeps exactly the supplied ones. *)
Inductive field (A : Type) :=
| Unset
| Supplied (a : A).
Arguments Unset {A}.
Arguments Supplied {A} a.

Record OwnerUpdate := mkOwnerUpdate {
  ou_first_name : field (option string);
  ou_last_name : field (option string);
  ou_phone : field (option string);
  ou_email : field (option string);
  ou_birth_date : field (option date)
}.

(** The keyword dictionary [data] built by [patch_owner]: an untyped
    mapping, in which the required strings may have become [None]. *)
Record OwnerData := mkOwnerData {
  d_first_name : option string;
  d_last_name : option string;
  d_phone : option string;
  d_email : option string;
  d_birth_date : option date;
  d_pets : list PetItem;
  d_id : UUID;
  d_created_at : datetime;
  d_updated_at : datetime
}.

(** [owner.model_dump()] *)
Definition owner_model_dump (o : OwnerRead) : OwnerData :=
  {| d_first_name := Some (first_name o);
     d_last_name := Some (last_name o);
     d_phone := Some (phone o);
     d_email := email o;
     d_birth_date := birth_date o;
     d_pets := pets o;
     d_id := owner_id o;
     d_created_at := created_at o;
     d_updated_at := updated_at o |}.

Definition merge {A : Type} (old : A) (f : field A) : A :=
  match f with
  | Unset => old
  | Supplied a => a
  end.

(** [data.update(payload.model_dump(exclude_unset=True))] *)
Definition owner_data_update (data : OwnerData) (p : OwnerUpdate) : OwnerData :=
  {| d_first_name := merge (d_first_name data) (ou_first_name p);
     d_last_name := merge (d_last_name data) (ou_last_name p);
     d_phone := merge (d_phone data) (ou_phone p);
     d_email := merge (d_email data) (ou_email p);
     d_birth_date := merge (d_birth_date data) (ou_birth_date p);
     d_pets := d_pets data;
     d_id := d_id data;
     d_created_at := d_created_at data;
     d_updated_at := d_updated_at data |}.

(** [data["updated_at"] = ...] *)
Definition owner_data_set_updated_at (data : OwnerData) (t : datetime) : OwnerData :=
  {| d_first_name := d_first_name data;
     d_last_name := d_last_name data;
     d_phone := d_phone data;
     d_email := d_email data;
     d_birth_date := d_birth_date data;
     d_pets := d_pets data;
     d_id := d_id data;
     d_created_at := d_created_at data;
     d_updated_at := t |}.

(** [OwnerRead( **data)] with every key present: validation fails when one
    of the required strings [first_name], [last_name], [phone] is [None]. *)
Definition OwnerRead_validate (data : OwnerData) : option OwnerRead :=
  match d_first_name data, d_last_name data, d_phone data with
  | Some fn, Some ln, Some ph =>
      Some {| first_name := fn;
              last_name := ln;
              phone := ph;
              email := d_email data;
              birth_date := d_birth_date data;
              pets := d_pets data;
              owner_id := d_id data;
              created_at := d_created_at data;
              updated_at := d_updated_at data |}
  | _, _, _ => None
  end.

(** Attribute assignment [owner.pets = ps]. *)
Definition set_pets (o : OwnerRead) (ps : list PetItem) : OwnerRead :=
  {| first_name := first_name o;
     last_name := last_name o;
     phone := phone o;
     email := email o;
     birth_date := birth_date o;
     pets := ps;
     owner_id := owner_id o;
     created_at := created_at o;
     updated_at := updated_at o |}.

(** [pet.model_dump()], [data.update(...)], [data["updated_at"] = t] and
    [PetRead( **data)] of [patch_pet], on the Pet schema above. *)
Definition pet_merge (pet : PetRead) (p : PetUpdate) (t : datetime) : PetRead :=
  {| pet_owner_id := match pu_owner_id p with Some x => x | None => pet_owner_id pet end;
     pet_name := match pu_name p with Some x => x | None => pet_name pet end;
     pet_species := match pu_species p with Some x => x | None => pet_species pet end;
     pet_id := pet_id pet;
     pet_created_at := pet_created_at pet;
     pet_updated_at := t |}.

(** ** Errors and the handler monad *)

Inductive Error :=
| HTTPException (status_code : Z) (detail : string)
| ValidationError.

Inductive Result (A : Type) :=
| Ok (a : A)
| Raise (e : Error).
Arguments Ok {A} a.
Arguments Raise {A} e.

(** The process state: the two dictionaries, and how many times [uuid4]
    and [utcnow] have been called. *)
Record World := mkWorld {
  OWNERS : Dict.t OwnerRead;
  PETS : Dict.t PetRead;
  uuid_calls : nat;
  clock_calls : nat
}.

Definition initial : World :=
  {| OWNERS := Dict.empty; PETS := Dict.empty; uuid_calls := 0; clock_calls := 0 |}.

(** A handler keeps the state it reached when it raises. *)
Definition M (A : Type) := World -> Result A * World.

Definition ret {A : Type} (a : A) : M A := fun w => (Ok a, w).

Definition raise {A : Type} (e : Error) : M A := fun w => (Raise e, w).

Definition bind {A B : Type} (m : M A) (k : A -> M B) : M B :=
  fun w =>
    match m w with
    | (Ok a, w') => k a w'
    | (Raise e, w') => (Raise e, w')
    end.

Notation "x <- m ;; k" := (bind m (fun x => k))
  (at level 61, m at next level, right associativity).
Notation "m ;;; k" := (bind m (fun _ => k))
  (at level 61, right associativity).

Definition get_OWNERS : M (Dict.t OwnerRead) := fun w => (Ok (OWNERS w), w).
Definition get_PETS : M (Dict.t PetRead) := fun w => (Ok (PETS w), w).

Definition put_OWNERS (d : Dict.t OwnerRead) : M unit :=
  fun w => (Ok tt, {| OWNERS := d; PETS := PETS w;
                      uuid_calls := uuid_calls w; clock_calls := clock_calls w |}).

Definition put_PETS (d : Dict.t PetRead) : M unit :=
  fun w => (Ok tt, {| OWNERS := OWNERS w; PETS := d;
                      uuid_calls := uuid_calls w; clock_calls := clock_calls w |}).

(** ** Request handlers of [main.py] *)

Section Handlers.

(** [uuid4_at n] is what the [n]-th call of [uuid4()] returns, and
    [utcnow_at n] what the [n]-th call of [datetime.utcnow()] returns. *)
Variable uuid4_at : nat -> UUID.
Variable utcnow_at : nat -> datetime.

Definition uuid4 : M UUID :=
  fun w => (Ok (uuid4_at (uuid_calls w)),
            {| OWNERS := OWNERS w; PETS := PETS w;
               uuid_calls := S (uuid_calls w); clock_calls := clock_calls w |}).

Definition utcnow : M datetime :=
  fun w => (Ok (utcnow_at (clock_calls w)),
            {| OWNERS := OWNERS w; PETS := PETS w;
               uuid_calls := uuid_calls w; clock_calls := S (clock_calls w) |}).

(** [OwnerRead( **payload.model_dump())]: the three server-side fields are
    absent from the payload, so each one's [default_factory] runs, in the
    order of the field declarations. *)
Definition OwnerRead_create (payload : OwnerCreate) : M OwnerRead :=
  i <- uuid4 ;;
  c <- utcnow ;;
  u <- utcnow ;;
  ret {| first_name := oc_first_name payload;
         last_name := oc_last_name payload;
         phone := oc_phone payload;
         email := oc_email payload;
         birth_date := oc_birth_date payload;
         pets := map ClientPet (oc_pets payload);
         owner_id := i;
         created_at := c;
         updated_at := u |}.

(** Modelled from the spec: [PetRead( **payload.model_dump())] of the
    missing [models/pet.py], with the same three server-side fields as
    [OwnerRead]. *)
Definition PetRead_create (payload : PetCreate) : M PetRead :=
  i <- uuid4 ;;
  c <- utcnow ;;
  u <- utcnow ;;
  ret {| pet_owner_id := pc_owner_id payload;
         pet_name := pc_name payload;
         pet_species := pc_species payload;
         pet_id := i;
         pet_created_at := c;
         pet_updated_at := u |}.

(** [[p for p in PETS.values() if p.owner_id == oid]] *)
Definition pets_of (oid : UUID) (ps : Dict.t PetRead) : list PetItem :=
  map StoredPet (filter (fun p => N.eqb (pet_owner_id p) oid) (Dict.values ps)).

Definition create_owner (payload : OwnerCreate) : M OwnerRead :=
  owner <- OwnerRead_create payload ;;
  os <- get_OWNERS ;;
  put_OWNERS (Dict.set (owner_id owner) owner os) ;;;
  ret owner.

(** The loop assigns to the [pets] attribute of every stored Owner object,
    so the dictionary itself changes. *)
Definition list_owners : M (list OwnerRead) :=
  os <- get_OWNERS ;;
  ps <- get_PETS ;;
  put_OWNERS (map (fun kv => (fst kv, set_pets (snd kv) (pets_of (owner_id (snd kv)) ps))) os) ;;;
  os' <- get_OWNERS ;;
  ret (Dict.values os').

Definition get_owner (oid : UUID) : M OwnerRead :=
  os <- get_OWNERS ;;
  match Dict.get oid os with
  | None => raise (HTTPException 404 "Owner not found")
  | Some owner =>
      ps <- get_PETS ;;
      let owner' := set_pets owner (pets_of (owner_id owner) ps) in
      put_OWNERS (Dict.set oid owner' os) ;;;
      ret owner'
  end.

Definition patch_owner (oid : UUID) (payload : OwnerUpdate) : M OwnerRead :=
  os <- get_OWNERS ;;
  match Dict.get oid os with
  | None => raise (HTTPException 404 "Owner not found")
  | Some owner =>
      let data := owner_data_update (owner_model_dump owner) payload in
      t <- utcnow ;;
      match OwnerRead_validate (owner_data_set_updated_at data t) with
      | None => raise ValidationError
      | Some updated =>
          ps <- get_PETS ;;
          let updated' := set_pets updated (pets_of oid ps) in
          put_OWNERS (Dict.set oid updated' os) ;;;
          ret updated'
      end
  end.

Definition put_owner_placeholder (oid : UUID) : M unit :=
  raise (HTTPException 501 "Not implemented").

Definition delete_owner (oid : UUID) : M unit :=
  os <- get_OWNERS ;;
  if negb (Dict.mem oid os) then raise (HTTPException 404 "Owner not found")
  else
    ps <- get_PETS ;;
    let pids := map fst (filter (fun kv => N.eqb (pet_owner_id (snd kv)) oid) (Dict.items ps)) in
    put_PETS (fold_left (fun d pid => Dict.del pid d) pids ps) ;;;
    put_OWNERS (Dict.del oid os) ;;;
    ret tt.

Definition create_pet (payload : PetCreate) : M PetRead :=
  os <- get_OWNERS ;;
  if negb (Dict.mem (pc_owner_id payload) os)
  then raise (HTTPException 400 "owner_id does not exist")
  else
    pet <- PetRead_create payload ;;
    ps <- get_PETS ;;
    put_PETS (Dict.set (pet_id pet) pet ps) ;;;
    ret pet.

Definition list_pets : M (list PetRead) :=
  ps <- get_PETS ;;
  ret (Dict.values ps).

Definition get_pet (pid : UUID) : M PetRead :=
  ps <- get_PETS ;;
  match Dict.get pid ps with
  | None => raise (HTTPException 404 "Pet not found")
  | Some pet => ret pet
  end.

Definition patch_pet (pid : UUID) (payload : PetUpdate) : M PetRead :=
  ps <- get_PETS ;;
  match Dict.get pid ps with
  | None => raise (HTTPException 404 "Pet not found")
  | Some pet =>
      t <- utcnow ;;
      let updated := pet_merge pet payload t in
      put_PETS (Dict.set pid updated ps) ;;;
      ret updated
  end.

Definition put_pet_placeholder (pid : UUID) : M unit :=
  raise (HTTPException 501 "Not implemented").

Definition delete_pet (pid : UUID) : M unit :=
  ps <- get_PETS ;;
  if negb (Dict.mem pid ps) then raise (HTTPException 404 "Pet not found")
  else
    put_PETS (Dict.del pid ps) ;;;
    ret tt.

(** ** The HTTP application: routes and runs of requests *)

Inductive Request :=
| POST_owners (payload : OwnerCreate)
| GET_owners
| GET_owner (oid : UUID)
| PATCH_owner (oid : UUID) (payload : OwnerUpdate)
| PUT_owner (oid : UUID)
| DELETE_owner (oid : UUID)
| POST_pets (payload : PetCreate)
| GET_pets
| GET_pet (pid : UUID)
| PATCH_pet (pid : UUID) (payload : PetUpdate)
| PUT_pet (pid : UUID)
| DELETE_pet (pid : UUID).

Inductive Body :=
| OwnerBody (o : OwnerRead)
| OwnersBody (os : list OwnerRead)
| PetBody (p : PetRead)
| PetsBody (ps : list PetRead)
| NoBody.

Definition fmap {A B : Type} (f : A -> B) (m : M A) : M B :=
  a <- m ;; ret (f a).

Definition handle (r : Request) : M Body :=
  match r with
  | POST_owners payload => fmap OwnerBody (create_owner payload)
  | GET_owners => fmap OwnersBody list_owners
  | GET_owner oid => fmap OwnerBody (get_owner oid)
  | PATCH_owner oid payload => fmap OwnerBody (patch_owner oid payload)
  | PUT_owner oid => fmap (fun _ => NoBody) (put_owner_placeholder oid)
  | DELETE_owner oid => fmap (fun _ => NoBody) (delete_owner oid)
  | POST_pets payload => fmap PetBody (create_pet payload)
  | GET_pets => fmap PetsBody list_pets
  | GET_pet pid => fmap PetBody (get_pet pid)
  | PATCH_pet pid payload => fmap PetBody (patch_pet pid payload)
  | PUT_pet pid => fmap (fun _ => NoBody) (put_pet_placeholder pid)
  | DELETE_pet pid => fmap (fun _ => NoBody) (delete_pet pid)
  end.

(** The state after serving the requests [rs] one after the other, and the
    responses in the order they were produced. *)
Fixpoint run (rs : list Request) (w : World) : list (Result Body) * World :=
  match rs with
  | [] => ([], w)
  | r :: rs' =>
      let (resp, w') := handle r w in
      let (resps, w'') := run rs' w' in
      (resp :: resps, w'')
  end.

Definition reachable (w : World) : Prop :=
  exists rs, snd (run rs initial) = w.

(** ** Sample requests *)

Definition boba_summary : PetBase :=
  {| pb_id := 7%N; pb_name := "Boba"; pb_species := "Cat" |}.

Definition ada : OwnerCreate :=
  {| oc_first_name := "Ada"; oc_last_name := "Lovelace";
     oc_phone := "+1-212-555-0199"; oc_email := Some "ada@example.com";
     oc_birth_date := None; oc_pets := [boba_summary] |}.

(** A Pet of the Owner whose id is [0]. *)
Definition boba : PetCreate :=
  {| pc_owner_id := 0%N; pc_name := "Boba"; pc_species := "Cat" |}.

(** The update [{"last_name": "Byron"}]. *)
Definition rename_byron : OwnerUpdate :=
  {| ou_first_name := Unset; ou_last_name := Supplied (Some "Byron");
     ou_phone := Unset; ou_email := Unset; ou_birth_date := Unset |}.

(** The update [{}]. *)
Definition no_change : OwnerUpdate :=
  {| ou_first_name := Unset; ou_last_name := Unset;
     ou_phone := Unset; ou_email := Unset; ou_birth_date := Unset |}.

(** The update [{"first_name": null}]. *)
Definition null_first_name : OwnerUpdate :=
  {| ou_first_name := Supplied None; ou_last_name := Unset;
     ou_phone := Unset; ou_email := Unset; ou_birth_date := Unset |}.

(** The Pet update [{"owner_id": 99}]. *)
Definition move_to_99 : PetUpdate :=
  {| pu_owner_id := Some 99%N; pu_name := None; pu_species := None |}.

(** A Pet of the Owner whose id is [2]. *)
Definition rex : PetCreate :=
  {| pc_owner_id := 2%N; pc_name := "Rex"; pc_species := "Dog" |}.

(** The state after one Owner was created with a client-supplied [pets]
    list. *)
Definition after_ada : World :=
  snd (run [POST_owners ada] initial).

(** The state after an Owner and a Pet were created; when [uuid4] counts
    from [0], the Pet belongs to the Owner. *)
Definition after_ada_boba : World :=
  snd (run [POST_owners ada; POST_pets boba] initial).

(** Two Owners with one Pet each, when [uuid4] counts from [0]. *)
Definition two_households : World :=
  snd (run [POST_owners ada; POST_pets boba; POST_owners ada; POST_pets rex] initial).

(** ** Invariants of the state and assumptions on the environment *)

(** Both dictionaries have pairwise distinct keys. *)
Definition wf_world (w : World) : Prop :=
  Dict.wf (OWNERS w) /\ Dict.wf (PETS w).

(** Every record is stored under its own [id]. *)
Definition keys_match (w : World) : Prop :=
  Forall (fun kv => owner_id (snd kv) = fst kv) (OWNERS w) /\
  Forall (fun kv => pet_id (snd kv) = fst kv) (PETS w).

(** [c] and [u] are readings of the clock among the first [n] ones, [c]
    taken no later than [u]. *)
Definition stamped (n : nat) (c u : datetime) : Prop :=
  exists i j, (i <= j)%nat /\ (j < n)%nat /\ c = utcnow_at i /\ u = utcnow_at j.

(** The timestamps of every stored record are past readings of the clock. *)
Definition timestamps_read (w : World) : Prop :=
  Forall (fun kv => stamped (clock_calls w)
                      (created_at (snd kv)) (updated_at (snd kv))) (OWNERS w) /\
  Forall (fun kv => stamped (clock_calls w)
                      (pet_created_at (snd kv)) (pet_updated_at (snd kv))) (PETS w).

(** [updated_at >= created_at] on every stored record. *)
Definition timestamps_ordered (w : World) : Prop :=
  Forall (fun kv => (created_at (snd kv) <= updated_at (snd kv))%Z) (OWNERS w) /\
  Forall (fun kv => (pet_created_at (snd kv) <= pet_updated_at (snd kv))%Z) (PETS w).

(** The clock never goes back. *)
Definition clock_monotone : Prop :=
  forall i j, (i <= j)%nat -> (utcnow_at i <= utcnow_at j)%Z.

(** [uuid4] never returns the same value twice. *)
Definition uuid4_unique : Prop :=
  forall i j, uuid4_at i = uuid4_at j -> i = j.

(** The ids of the Owners that the [POST /owners] requests of a run have
    returned. *)
Definition issued_owner_id (rr : Request * Result Body) : list UUID :=
  match rr with
  | (POST_owners _, Ok (OwnerBody o)) => [owner_id o]
  | _ => []
  end.

Definition issued_owner_ids (rs : list Request) (resps : list (Result Body)) : list UUID :=
  flat_map issued_owner_id (combine rs resps).

(** What [data.update] makes of a field that may be left out. *)
Definition patched (A : Type) (old : A) (f : option A) : A :=
  match f with
  | Some a => a
  | None => old
  end.
Arguments patched {A} old f.

(** The payload sets none of the required strings to [null]. *)
Definition no_required_null (p : OwnerUpdate) : Prop :=
  ou_first_name p <> Supplied None /\
  ou_last_name p <> Supplied None /\
  ou_phone p <> Supplied None.

(** ** Further invariants and classes of requests *)

(** No stored Pet refers to an Owner that is not stored. *)
Definition refs_ok (w : World) : Prop :=
  Forall (fun kv => Dict.mem (pet_owner_id (snd kv)) (OWNERS w) = true) (PETS w).

(** The request is not a PATCH of a Pet that supplies [owner_id]. *)
Definition keeps_owner (r : Request) : Prop :=
  match r with
  | PATCH_pet _ payload => pu_owner_id payload = None
  | _ => True
  end.

(** Every key of either dictionary is one of the values that [uuid4] has
    returned so far. *)
Definition drawn (n : nat) (k : UUID) : Prop :=
  exists i, (i < n)%nat /\ k = uuid4_at i.

Definition keys_drawn (w : World) : Prop :=
  Forall (drawn (uuid_calls w)) (Dict.keys (OWNERS w)) /\
  Forall (drawn (uuid_calls w)) (Dict.keys (PETS w)).

(** No id is both the key of an Owner and the key of a Pet. *)
Definition ids_disjoint (w : World) : Prop :=
  forall k, In k (Dict.keys (OWNERS w)) -> ~ In k (Dict.keys (PETS w)).

(** The routes under [/pets], and the routes under [/owners] other than
    DELETE. *)
Definition pet_route (r : Request) : bool :=
  match r with
  | POST_pets _ | GET_pets | GET_pet _ | PATCH_pet _ _ | PUT_pet _
  | DELETE_pet _ => true
  | _ => false
  end.

Definition owner_route_but_delete (r : Request) : bool :=
  match r with
  | POST_owners _ | GET_owners | GET_owner _ | PATCH_owner _ _
  | PUT_owner _ => true
  | _ => false
  end.

(** The update payload sets one of the required strings to [null]. *)
Definition required_null (p : OwnerUpdate) : Prop :=
  ou_first_name p = Supplied None \/
  ou_last_name p = Supplied None \/
  ou_phone p = Supplied None.

(** The state [w] after one more reading of the clock. *)
Definition tick (w : World) : World :=
  {| OWNERS := OWNERS w; PETS := PETS w;
     uuid_calls := uuid_calls w; clock_calls := S (clock_calls w) |}.

(** Two Owner records that differ at most in [pets]. *)
Definition same_but_pets (a b : OwnerRead) : Prop :=
  first_name a = first_name b /\
  last_name a = last_name b /\
  phone a = phone b /\
  email a = email b /\
  birth_date a = birth_date b /\
  owner_id a = owner_id b /\
  created_at a = created_at b /\
  updated_at a = updated_at b.

(** The Pet update [{"name": "Bobby"}]. *)
Definition rename_bobby : PetUpdate :=
  {| pu_owner_id := None; pu_name := Some "Bobby"; pu_species := None |}.

(** ** Facts about dictionaries *)

Section DictFacts.

Context {V : Type}.
Implicit Types (d : Dict.t V) (k : UUID) (v : V).

Lemma get_set_same k v d : Dict.get k (Dict.set k v d) = Some v.
Proof.
  induction d as [|[k' v'] d IH]; simpl.
  - now rewrite N.eqb_refl.
  - destruct (N.eqb k k') eqn:E; simpl; rewrite ?N.eqb_refl, ?E; auto.
Qed.

Lemma get_set_other k k' v d :
  k <> k' -> Dict.get k' (Dict.set k v d) = Dict.get k' d.
Proof.
  intros Hne. induction d as [|[k0 v0] d IH]; simpl.
  - destruct (N.eqb k' k) eqn:E; auto. apply N.eqb_eq in E. congruence.
  - destruct (N.eqb k k0) eqn:E; simpl.
    + apply N.eqb_eq in E. subst k0.
      destruct (N.eqb k' k) eqn:E'; auto. apply N.eqb_eq in E'. congruence.
    + now rewrite IH.
Qed.

Lemma get_del_same k d : Dict.get k (Dict.del k d) = None.
Proof.
  induction d as [|[k' v'] d IH]; simpl; auto.
  destruct (N.eqb k k') eqn:E; simpl; auto. now rewrite E.
Qed.

Lemma get_del_other k k' d :
  k <> k' -> Dict.get k' (Dict.del k d) = Dict.get k' d.
Proof.
  intros Hne. induction d as [|[k0 v0] d IH]; simpl; auto.
  destruct (N.eqb k k0) eqn:E; simpl.
  - apply N.eqb_eq in E. subst k0.
    destruct (N.eqb k' k) eqn:E'; auto. apply N.eqb_eq in E'. congruence.
  - now rewrite IH.
Qed.

Lemma get_In k v d : Dict.get k d = Some v -> In (k, v) d.
Proof.
  induction d as [|[k' v'] d IH]; simpl; [discriminate|].
  destruct (N.eqb k k') eqn:E.
  - apply N.eqb_eq in E. intros [= ->]. subst. now left.
  - auto.
Qed.

Lemma In_get k v d : Dict.wf d -> In (k, v) d -> Dict.get k d = Some v.
Proof.
  unfold Dict.wf, Dict.keys.
  induction d as [|[k' v'] d IH]; simpl; [tauto|].
  intros Hnd [Heq|Hin].
  - injection Heq as -> ->. now rewrite N.eqb_refl.
  - inversion Hnd as [|? ? Hnot Hnd']; subst.
    destruct (N.eqb k k') eqn:E; auto.
    apply N.eqb_eq in E. subst k'. exfalso. apply Hnot.
    change k with (fst (k, v)). now apply in_map.
Qed.

Lemma mem_true k d : Dict.mem k d = true <-> exists v, Dict.get k d = Some v.
Proof.
  unfold Dict.mem. destruct (Dict.get k d); split; eauto; try discriminate.
  now intros [? ?].
Qed.

Lemma mem_false k d : Dict.mem k d = false <-> Dict.get k d = None.
Proof.
  unfold Dict.mem. destruct (Dict.get k d); split; auto; discriminate.
Qed.

Lemma In_set k v d x : In x (Dict.set k v d) -> x = (k, v) \/ In x d.
Proof.
  induction d as [|[k' v'] d IH]; simpl.
  - intros [<-|[]]. now left.
  - destruct (N.eqb k k'); simpl; intros [<-|H]; auto.
    destruct (IH H); auto.
Qed.

Lemma keys_set k v d :
  Dict.keys (Dict.set k v d) =
  if Dict.mem k d then Dict.keys d else Dict.keys d ++ [k].
Proof.
  unfold Dict.mem. induction d as [|[k' v'] d IH]; simpl; auto.
  destruct (N.eqb k k') eqn:E; simpl.
  - apply N.eqb_eq in E. now subst.
  - rewrite IH. now destruct (Dict.get k d).
Qed.

Lemma get_None_keys k d : Dict.get k d = None -> ~ In k (Dict.keys d).
Proof.
  induction d as [|[k' v'] d IH]; simpl; auto.
  destruct (N.eqb k k') eqn:E; [discriminate|].
  apply N.eqb_neq in E. intros H [Heq|Hin]; [congruence|]. now apply IH.
Qed.

Lemma wf_set k v d : Dict.wf d -> Dict.wf (Dict.set k v d).
Proof.
  unfold Dict.wf. rewrite keys_set. intros Hnd.
  destruct (Dict.mem k d) eqn:E; auto.
  apply mem_false, get_None_keys in E.
  apply NoDup_app; auto.
  - repeat constructor. simpl. tauto.
  - intros x Hx [<-|[]]. tauto.
Qed.

Lemma wf_filter (f : UUID * V -> bool) d : Dict.wf d -> Dict.wf (filter f d).
Proof.
  unfold Dict.wf, Dict.keys.
  induction d as [|kv d IH]; simpl; auto.
  intros Hnd. inversion Hnd as [|? ? Hnot Hnd']; subst.
  destruct (f kv); simpl; auto.
  constructor; auto.
  intros Hin. apply Hnot. apply in_map_iff in Hin as [x [Hx Hin]].
  apply filter_In in Hin as [Hin _]. rewrite <- Hx. now apply in_map.
Qed.

Lemma wf_del k d : Dict.wf d -> Dict.wf (Dict.del k d).
Proof. apply wf_filter. Qed.

Lemma wf_del_all (ks : list UUID) d :
  Dict.wf d -> Dict.wf (fold_left (fun d k => Dict.del k d) ks d).
Proof.
  revert d. induction ks as [|k ks IH]; simpl; auto.
  intros d Hd. apply IH. now apply wf_del.
Qed.

Lemma get_del_all (ks : list UUID) k d :
  Dict.get k (fold_left (fun d k => Dict.del k d) ks d) =
  if existsb (N.eqb k) ks then None else Dict.get k d.
Proof.
  revert d. induction ks as [|k0 ks IH]; simpl; auto.
  intros d. rewrite IH.
  destruct (N.eqb k k0) eqn:E; simpl.
  - apply N.eqb_eq in E. subst k0. rewrite get_del_same.
    now destruct (existsb (N.eqb k) ks).
  - apply N.eqb_neq in E. rewrite get_del_other by congruence. reflexivity.
Qed.

Lemma In_del_all (ks : list UUID) d x :
  In x (fold_left (fun d k => Dict.del k d) ks d) -> In x d.
Proof.
  revert d. induction ks as [|k ks IH]; simpl; auto.
  intros d H. apply IH in H. unfold Dict.del in H.
  now apply filter_In in H.
Qed.

End DictFacts.

(** ** Running a handler *)

Ltac exec :=
  unfold create_owner, list_owners, get_owner, patch_owner,
    put_owner_placeholder, delete_owner, create_pet, list_pets, get_pet,
    patch_pet, put_pet_placeholder, delete_pet, OwnerRead_create,
    PetRead_create, fmap, bind, ret, raise, uuid4, utcnow,
    get_OWNERS, get_PETS, put_OWNERS, put_PETS; simpl.

(** ** PUT *)

(** C8: for every identifier, present or not, and every state, the two PUT
    routes raise the HTTP error 501 and leave the whole state, hence both
    dictionaries, as it was.  The handlers take no request body. *)
Theorem put_is_not_implemented (oid pid : UUID) (w : World) :
  handle (PUT_owner oid) w = (Raise (HTTPException 501 "Not implemented"), w) /\
  handle (PUT_pet pid) w = (Raise (HTTPException 501 "Not implemented"), w).
Proof. split; reflexivity. Qed.

(** ** POST /pets *)

(** C2: when the payload's [owner_id] is not a key of [OWNERS], [create_pet]
    raises 400 "owner_id does not exist" and the state is unchanged; when it
    is a key, [create_pet] returns a Pet built from the payload, stored in
    [PETS] under its id, and [OWNERS] is unchanged. *)
Theorem create_pet_checks_owner (payload : PetCreate) (w : World) :
  (Dict.mem (pc_owner_id payload) (OWNERS w) = false ->
   create_pet payload w =
     (Raise (HTTPException 400 "owner_id does not exist"), w)) /\
  (Dict.mem (pc_owner_id payload) (OWNERS w) = true ->
   exists pet w',
     create_pet payload w = (Ok pet, w') /\
     pet_owner_id pet = pc_owner_id payload /\
     pet_name pet = pc_name payload /\
     pet_species pet = pc_species payload /\
     Dict.get (pet_id pet) (PETS w') = Some pet /\
     OWNERS w' = OWNERS w).
Proof.
  split; intros Hmem.
  - exec. now rewrite Hmem.
  - exec. rewrite Hmem. simpl. do 2 eexists. split; [reflexivity|].
    simpl. repeat split. apply get_set_same.
Qed.

(** ** POST /owners *)

(** C10: [create_owner] returns, and stores under the returned id, an Owner
    whose [pets] are exactly the entries of the payload, whatever [PETS]
    holds; [PETS] is neither read nor changed. *)
Theorem create_owner_keeps_client_pets (payload : OwnerCreate) (w : World) :
  exists o w',
    create_owner payload w = (Ok o, w') /\
    pets o = map ClientPet (oc_pets payload) /\
    Dict.get (owner_id o) (OWNERS w') = Some o /\
    PETS w' = PETS w.
Proof.
  exec. do 2 eexists. split; [reflexivity|]. simpl.
  repeat split. apply get_set_same.
Qed.

(** ** GET /owners and GET /owners/{id} *)

(** C5: the Owner returned by [get_owner], and every Owner returned by
    [list_owners], carries as [pets] the values of [PETS], in dictionary
    order, whose [owner_id] is that Owner's id; what the stored Owner held
    before plays no part.  [get_owner] answers for every key of [OWNERS]
    and [list_owners] lists every stored Owner; neither changes [PETS]. *)
Theorem owner_reads_report_live_pets (w : World) :
  (forall oid owner,
     Dict.get oid (OWNERS w) = Some owner ->
     exists o w',
       get_owner oid w = (Ok o, w') /\
       owner_id o = owner_id owner /\
       pets o = map StoredPet
                  (filter (fun p => N.eqb (pet_owner_id p) (owner_id o))
                          (Dict.values (PETS w))) /\
       PETS w' = PETS w) /\
  (exists os w',
     list_owners w = (Ok os, w') /\
     map owner_id os = map owner_id (Dict.values (OWNERS w)) /\
     Forall (fun o =>
               pets o = map StoredPet
                          (filter (fun p => N.eqb (pet_owner_id p) (owner_id o))
                                  (Dict.values (PETS w)))) os /\
     PETS w' = PETS w).
Proof.
  split.
  - intros oid owner Hget. exec. rewrite Hget. simpl.
    do 2 eexists. split; [reflexivity|]. simpl. repeat split.
  - exec. do 2 eexists. split; [reflexivity|]. simpl.
    unfold Dict.values. rewrite !map_map. simpl. repeat split.
    apply Forall_map. apply Forall_forall. intros [k o] _. reflexivity.
Qed.

(** ** DELETE /owners/{id} *)

(** C1: for a key [oid] of [OWNERS], [delete_owner] succeeds; afterwards
    [oid] is no longer a key of [OWNERS], [get_pet] raises 404 for every Pet
    of [PETS] whose [owner_id] was [oid], and every other Pet is still stored
    under its key. *)
Theorem delete_owner_cascades (oid : UUID) (w : World) :
  Dict.wf (PETS w) ->
  Dict.mem oid (OWNERS w) = true ->
  exists w',
    delete_owner oid w = (Ok tt, w') /\
    Dict.get oid (OWNERS w') = None /\
    (forall pid pet,
       Dict.get pid (PETS w) = Some pet -> pet_owner_id pet = oid ->
       get_pet pid w' = (Raise (HTTPException 404 "Pet not found"), w')) /\
    (forall pid pet,
       Dict.get pid (PETS w) = Some pet -> pet_owner_id pet <> oid ->
       Dict.get pid (PETS w') = Some pet).
Proof.
  intros Hwf Hmem. exec. rewrite Hmem. simpl.
  eexists. split; [reflexivity|]. simpl.
  split; [apply get_del_same|]. split.
  - intros pid pet Hget Hown. exec. rewrite get_del_all.
    replace (existsb _ _) with true; [reflexivity|].
    symmetry. apply existsb_exists. exists pid. split; [|apply N.eqb_refl].
    apply in_map_iff. exists (pid, pet). split; [reflexivity|].
    apply filter_In. split; [now apply get_In|].
    simpl. now apply N.eqb_eq.
  - intros pid pet Hget Hown. rewrite get_del_all.
    replace (existsb _ _) with false; [assumption|].
    symmetry. apply not_true_is_false. intros Hex.
    apply existsb_exists in Hex as [pid' [Hin Heq]].
    apply N.eqb_eq in Heq. subst pid'.
    apply in_map_iff in Hin as [[k pet'] [Hk Hin]]. simpl in Hk. subst k.
    apply filter_In in Hin as [Hin Hown']. simpl in Hown'.
    apply N.eqb_eq in Hown'.
    unfold Dict.items in Hin. apply In_get in Hin; [|assumption].
    rewrite Hin in Hget. injection Hget as <-. auto.
Qed.

(** ** PATCH /pets/{id} *)

(** C7: for a stored Pet and an update payload whose [owner_id] is not a
    key of [OWNERS], [patch_pet] succeeds, the returned Pet carries that
    [owner_id] and is stored under the same key, and [OWNERS] is unchanged,
    so the reference dangles. *)
Theorem patch_pet_accepts_unknown_owner
    (pid : UUID) (payload : PetUpdate) (w : World) (pet : PetRead) (oid : UUID) :
  Dict.get pid (PETS w) = Some pet ->
  pu_owner_id payload = Some oid ->
  Dict.mem oid (OWNERS w) = false ->
  exists pet' w',
    patch_pet pid payload w = (Ok pet', w') /\
    pet_owner_id pet' = oid /\
    Dict.get pid (PETS w') = Some pet' /\
    Dict.mem (pet_owner_id pet') (OWNERS w') = false.
Proof.
  intros Hget Hown Hmem. exec. rewrite Hget. simpl.
  do 2 eexists. split; [reflexivity|]. simpl.
  rewrite Hown. repeat split; auto. apply get_set_same.
Qed.

(** ** Preservation of the invariants *)

Section ForallDict.

Context {V : Type} (P : UUID * V -> Prop).

Lemma Forall_set k v (d : Dict.t V) :
  Forall P d -> P (k, v) -> Forall P (Dict.set k v d).
Proof.
  intros Hd Hkv. apply Forall_forall. intros x Hx.
  apply In_set in Hx as [->|Hx]; auto.
  revert x Hx. now apply Forall_forall.
Qed.

Lemma Forall_del k (d : Dict.t V) : Forall P d -> Forall P (Dict.del k d).
Proof.
  intros Hd. apply Forall_forall. intros x Hx.
  apply filter_In in Hx as [Hx _]. revert x Hx. now apply Forall_forall.
Qed.

Lemma Forall_del_all ks (d : Dict.t V) :
  Forall P d -> Forall P (fold_left (fun d k => Dict.del k d) ks d).
Proof.
  intros Hd. apply Forall_forall. intros x Hx.
  apply In_del_all in Hx. revert x Hx. now apply Forall_forall.
Qed.

Lemma Forall_get k v (d : Dict.t V) :
  Forall P d -> Dict.get k d = Some v -> P (k, v).
Proof.
  intros Hd Hget. apply get_In in Hget.
  revert Hget. now apply Forall_forall.
Qed.

End ForallDict.

Lemma keys_map_snd {A B : Type} (f : UUID * A -> B) (d : Dict.t A) :
  Dict.keys (map (fun kv => (fst kv, f kv)) d) = Dict.keys d.
Proof.
  unfold Dict.keys. rewrite map_map. simpl. reflexivity.
Qed.

Lemma snd_run_cons (r : Request) (rs : list Request) (w : World) :
  snd (run (r :: rs) w) = snd (run rs (snd (handle r w))).
Proof.
  simpl. destruct (handle r w) as [resp w']. simpl.
  destruct (run rs w') as [resps w'']. reflexivity.
Qed.

Lemma run_invariant (I : World -> Prop) :
  (forall r w, I w -> I (snd (handle r w))) ->
  forall rs w, I w -> I (snd (run rs w)).
Proof.
  intros Hstep rs. induction rs as [|r rs IH]; intros w Hw; [exact Hw|].
  rewrite snd_run_cons. apply IH, Hstep, Hw.
Qed.

Lemma validate_patched (o : OwnerRead) (p : OwnerUpdate) (t : datetime) (u : OwnerRead) :
  OwnerRead_validate
    (owner_data_set_updated_at (owner_data_update (owner_model_dump o) p) t) = Some u ->
  Some (first_name u) = merge (Some (first_name o)) (ou_first_name p) /\
  Some (last_name u) = merge (Some (last_name o)) (ou_last_name p) /\
  Some (phone u) = merge (Some (phone o)) (ou_phone p) /\
  email u = merge (email o) (ou_email p) /\
  birth_date u = merge (birth_date o) (ou_birth_date p) /\
  pets u = pets o /\
  owner_id u = owner_id o /\
  created_at u = created_at o /\
  updated_at u = t.
Proof.
  unfold OwnerRead_validate. simpl.
  destruct (ou_first_name p) as [|[fn|]]; simpl; try discriminate;
  destruct (ou_last_name p) as [|[ln|]]; simpl; try discriminate;
  destruct (ou_phone p) as [|[ph|]]; simpl; try discriminate;
  intros [= <-]; simpl; repeat split.
Qed.

Lemma validate_patched_total (o : OwnerRead) (p : OwnerUpdate) (t : datetime) :
  no_required_null p ->
  exists u,
    OwnerRead_validate
      (owner_data_set_updated_at (owner_data_update (owner_model_dump o) p) t) = Some u.
Proof.
  intros (Hf & Hl & Hp). unfold OwnerRead_validate. simpl.
  destruct (ou_first_name p) as [|[fn|]]; simpl; try congruence;
  destruct (ou_last_name p) as [|[ln|]]; simpl; try congruence;
  destruct (ou_phone p) as [|[ph|]]; simpl; try congruence; eauto.
Qed.

Lemma handle_wf (r : Request) (w : World) :
  wf_world w -> wf_world (snd (handle r w)).
Proof.
  unfold wf_world. intros [Ho Hp].
  destruct r; simpl; exec; auto.
  - split; auto. now apply wf_set.
  - split; auto. unfold Dict.wf. now rewrite keys_map_snd.
  - destruct (Dict.get oid (OWNERS w)); simpl; auto.
    split; auto. now apply wf_set.
  - destruct (Dict.get oid (OWNERS w)); simpl; auto.
    destruct (OwnerRead_validate _); simpl; auto.
    split; auto. now apply wf_set.
  - destruct (Dict.mem oid (OWNERS w)); simpl; auto.
    split; [now apply wf_del | now apply wf_del_all].
  - destruct (Dict.mem (pc_owner_id payload) (OWNERS w)); simpl; auto.
    split; auto. now apply wf_set.
  - destruct (Dict.get pid (PETS w)); simpl; auto.
  - destruct (Dict.get pid (PETS w)); simpl; auto.
    split; auto. now apply wf_set.
  - destruct (Dict.mem pid (PETS w)); simpl; auto.
    split; auto. now apply wf_del.
Qed.

Lemma reachable_wf (w : World) : reachable w -> wf_world w.
Proof.
  intros [rs <-]. apply run_invariant; [apply handle_wf|].
  split; constructor.
Qed.

(** C9: every request handler (create, read, patch, put and delete, on
    Owners and on Pets) preserves that each Owner of [OWNERS] and each Pet
    of [PETS] is stored under its own id, whether the handler returns or
    raises. *)
Theorem handle_keeps_keys_match (r : Request) (w : World) :
  keys_match w -> keys_match (snd (handle r w)).
Proof.
  unfold keys_match. intros [Ho Hp].
  destruct r; simpl; exec; auto.
  - split; auto. now apply Forall_set.
  - split; auto. apply Forall_map. simpl.
    revert Ho. apply Forall_impl. auto.
  - destruct (Dict.get oid (OWNERS w)) as [owner|] eqn:Hget; simpl; auto.
    split; auto. apply Forall_set; auto. simpl.
    apply (Forall_get _ _ _ _ Ho Hget).
  - destruct (Dict.get oid (OWNERS w)) as [owner|] eqn:Hget; simpl; auto.
    destruct (OwnerRead_validate _) as [updated|] eqn:Hval; simpl; auto.
    split; auto. apply Forall_set; auto. simpl.
    apply validate_patched in Hval. destruct Hval as (_ & _ & _ & _ & _ & _ & -> & _).
    apply (Forall_get _ _ _ _ Ho Hget).
  - destruct (Dict.mem oid (OWNERS w)); simpl; auto.
    split; [now apply Forall_del | now apply Forall_del_all].
  - destruct (Dict.mem (pc_owner_id payload) (OWNERS w)); simpl; auto.
    split; auto. now apply Forall_set.
  - destruct (Dict.get pid (PETS w)); simpl; auto.
  - destruct (Dict.get pid (PETS w)) as [pet|] eqn:Hget; simpl; auto.
    split; auto. apply Forall_set; auto. simpl.
    apply (Forall_get _ _ _ _ Hp Hget).
  - destruct (Dict.mem pid (PETS w)); simpl; auto.
    split; auto. now apply Forall_del.
Qed.

(** ** Timestamps *)

Lemma stamped_later (n m : nat) (c u : datetime) :
  (n <= m)%nat -> stamped n c u -> stamped m c u.
Proof.
  intros Hle (i & j & Hij & Hj & Hc & Hu). exists i, j. repeat split; auto. lia.
Qed.

Lemma stamped_ordered (n : nat) (c u : datetime) :
  clock_monotone -> stamped n c u -> (c <= u)%Z.
Proof.
  intros Hmono (i & j & Hij & _ & -> & ->). now apply Hmono.
Qed.

Lemma Forall_stamped_later {V : Type} (fc fu : V -> datetime) (n m : nat) (d : Dict.t V) :
  (n <= m)%nat ->
  Forall (fun kv => stamped n (fc (snd kv)) (fu (snd kv))) d ->
  Forall (fun kv => stamped m (fc (snd kv)) (fu (snd kv))) d.
Proof.
  intros Hle. apply Forall_impl. intros kv. now apply stamped_later.
Qed.

Ltac later :=
  match goal with
  | H : Forall (fun kv => stamped ?n _ _) ?d |- Forall (fun kv => stamped ?m _ _) ?d =>
      apply (Forall_stamped_later _ _ n m); [lia | exact H]
  end.

Lemma handle_timestamps_read (r : Request) (w : World) :
  timestamps_read w -> timestamps_read (snd (handle r w)).
Proof.
  unfold timestamps_read. intros [Ho Hp].
  destruct r; simpl; exec; auto.
  - split; [|later]. apply Forall_set; [later|]. simpl.
    exists (clock_calls w), (S (clock_calls w)). repeat split; lia.
  - split; auto. apply Forall_map. simpl.
    revert Ho. apply Forall_impl. auto.
  - destruct (Dict.get oid (OWNERS w)) as [owner|] eqn:Hget; simpl; auto.
    split; auto. apply Forall_set; auto. simpl.
    apply (Forall_get _ _ _ _ Ho Hget).
  - destruct (Dict.get oid (OWNERS w)) as [owner|] eqn:Hget; simpl; auto.
    destruct (OwnerRead_validate _) as [updated|] eqn:Hval; simpl.
    + split; [|later]. apply Forall_set; [later|]. simpl.
      apply validate_patched in Hval.
      destruct Hval as (_ & _ & _ & _ & _ & _ & _ & -> & ->).
      destruct (Forall_get _ _ _ _ Ho Hget) as (i & j & Hij & Hj & Hc & _).
      simpl in *. exists i, (clock_calls w). repeat split; auto; lia.
    + split; later.
  - destruct (Dict.mem oid (OWNERS w)); simpl; auto.
    split; [now apply Forall_del | now apply Forall_del_all].
  - destruct (Dict.mem (pc_owner_id payload) (OWNERS w)); simpl; auto.
    split; [later|]. apply Forall_set; [later|]. simpl.
    exists (clock_calls w), (S (clock_calls w)). repeat split; lia.
  - destruct (Dict.get pid (PETS w)); simpl; auto.
  - destruct (Dict.get pid (PETS w)) as [pet|] eqn:Hget; simpl; auto.
    split; [later|]. apply Forall_set; [later|]. simpl.
    destruct (Forall_get _ _ _ _ Hp Hget) as (i & j & Hij & Hj & Hc & _).
    simpl in *. exists i, (clock_calls w). repeat split; auto; lia.
  - destruct (Dict.mem pid (PETS w)); simpl; auto.
    split; auto. now apply Forall_del.
Qed.

Lemma run_timestamps_read (rs : list Request) :
  timestamps_read (snd (run rs initial)).
Proof.
  apply run_invariant; [apply handle_timestamps_read|].
  split; constructor.
Qed.

(** C6: with a clock that never goes back, after any sequence of requests
    every stored Owner and every stored Pet has
    [created_at <= updated_at]. *)
Theorem updated_at_never_before_created_at (rs : list Request) :
  clock_monotone -> timestamps_ordered (snd (run rs initial)).
Proof.
  intros Hmono. destruct (run_timestamps_read rs) as [Ho Hp].
  split; [revert Ho | revert Hp]; apply Forall_impl; intros kv;
    now apply stamped_ordered.
Qed.

(** ** PATCH *)

(** C3 (amended): in a state reached by any sequence of requests, with a
    clock that never goes back, [patch_owner] on a stored Owner with a
    payload that sets none of the required strings to null succeeds; each of
    [first_name], [last_name], [phone], [email], [birth_date] is the
    supplied value if one was supplied and the old value otherwise; [id] and
    [created_at] are unchanged; [pets] is recomputed from [PETS]; and
    [updated_at] is at least the old [updated_at].  [patch_pet] on a stored
    Pet succeeds, overwrites exactly the supplied fields, keeps [id] and
    [created_at], and sets [updated_at] to a value at least the old one. *)
Theorem patch_overwrites_supplied_fields_only (rs : list Request) (w : World) :
  clock_monotone ->
  w = snd (run rs initial) ->
  (forall oid owner payload,
     Dict.get oid (OWNERS w) = Some owner ->
     no_required_null payload ->
     exists o' w',
       patch_owner oid payload w = (Ok o', w') /\
       Dict.get oid (OWNERS w') = Some o' /\
       Some (first_name o') = merge (Some (first_name owner)) (ou_first_name payload) /\
       Some (last_name o') = merge (Some (last_name owner)) (ou_last_name payload) /\
       Some (phone o') = merge (Some (phone owner)) (ou_phone payload) /\
       email o' = merge (email owner) (ou_email payload) /\
       birth_date o' = merge (birth_date owner) (ou_birth_date payload) /\
       owner_id o' = owner_id owner /\
       created_at o' = created_at owner /\
       pets o' = map StoredPet
                   (filter (fun p => N.eqb (pet_owner_id p) oid)
                           (Dict.values (PETS w))) /\
       (updated_at owner <= updated_at o')%Z) /\
  (forall pid pet payload,
     Dict.get pid (PETS w) = Some pet ->
     exists pet' w',
       patch_pet pid payload w = (Ok pet', w') /\
       Dict.get pid (PETS w') = Some pet' /\
       pet_owner_id pet' = patched (pet_owner_id pet) (pu_owner_id payload) /\
       pet_name pet' = patched (pet_name pet) (pu_name payload) /\
       pet_species pet' = patched (pet_species pet) (pu_species payload) /\
       pet_id pet' = pet_id pet /\
       pet_created_at pet' = pet_created_at pet /\
       (pet_updated_at pet <= pet_updated_at pet')%Z).
Proof.
  intros Hmono ->. destruct (run_timestamps_read rs) as [Ho Hp].
  set (w := snd (run rs initial)) in *. split.
  - intros oid owner payload Hget Hnull.
    destruct (validate_patched_total owner payload (utcnow_at (clock_calls w)) Hnull)
      as [u Hval].
    exec. rewrite Hget. simpl. rewrite Hval. simpl.
    do 2 eexists. split; [reflexivity|]. simpl.
    split; [apply get_set_same|].
    apply validate_patched in Hval.
    destruct Hval as (Hf & Hl & Hph & He & Hb & _ & Hi & Hc & Hu).
    repeat (split; [assumption|]). split; [reflexivity|].
    rewrite Hu.
    destruct (Forall_get _ _ _ _ Ho Hget) as (i & j & _ & Hj & _ & Hu').
    simpl in Hu'. rewrite Hu'. apply Hmono. lia.
  - intros pid pet payload Hget.
    exec. rewrite Hget. simpl.
    do 2 eexists. split; [reflexivity|]. simpl.
    split; [apply get_set_same|].
    repeat (split; [reflexivity|]).
    destruct (Forall_get _ _ _ _ Hp Hget) as (i & j & _ & Hj & _ & Hu).
    simpl in Hu. rewrite Hu. apply Hmono. lia.
Qed.

(** ** Identifiers *)

Lemma handle_uuid_calls (r : Request) (w : World) :
  (uuid_calls w <= uuid_calls (snd (handle r w)))%nat.
Proof.
  destruct r; simpl; exec; auto.
  - destruct (Dict.get oid (OWNERS w)); simpl; auto.
  - destruct (Dict.get oid (OWNERS w)); simpl; auto.
    destruct (OwnerRead_validate _); simpl; auto.
  - destruct (Dict.mem oid (OWNERS w)); simpl; auto.
  - destruct (Dict.mem (pc_owner_id payload) (OWNERS w)); simpl; auto.
  - destruct (Dict.get pid (PETS w)); simpl; auto.
  - destruct (Dict.get pid (PETS w)); simpl; auto.
  - destruct (Dict.mem pid (PETS w)); simpl; auto.
Qed.

Lemma handle_issued (r : Request) (w : World) (x : UUID) :
  In x (issued_owner_id (r, fst (handle r w))) ->
  x = uuid4_at (uuid_calls w) /\
  (uuid_calls w < uuid_calls (snd (handle r w)))%nat.
Proof.
  destruct r; simpl; try tauto.
  intros [<-|[]]. split; auto.
Qed.

Lemma run_issued (rs : list Request) (w : World) :
  (uuid_calls w <= uuid_calls (snd (run rs w)))%nat /\
  forall x, In x (issued_owner_ids rs (fst (run rs w))) ->
    exists i, (uuid_calls w <= i < uuid_calls (snd (run rs w)))%nat /\
              x = uuid4_at i.
Proof.
  revert w. induction rs as [|r rs IH]; intros w.
  - simpl. split; [lia|]. intros x [].
  - pose proof (handle_uuid_calls r w) as Hle.
    pose proof (handle_issued r w) as Hiss.
    simpl. destruct (handle r w) as [resp w1]. simpl in *.
    specialize (IH w1). destruct (run rs w1) as [resps w2]. simpl in *.
    destruct IH as [Hle' IH]. split; [lia|].
    unfold issued_owner_ids. simpl. intros x Hx.
    apply in_app_or in Hx as [Hx|Hx].
    + apply Hiss in Hx as [-> Hlt]. exists (uuid_calls w). split; [lia|reflexivity].
    + apply IH in Hx as (i & Hi & ->). exists i. split; [lia|reflexivity].
Qed.

(** C4 (amended): after any sequence of requests, [create_owner] returns
    an Owner whose [id] is the next value drawn from [uuid4]; if [uuid4]
    never returns the same value twice, that id differs from the id of every
    Owner returned by an earlier [POST /owners]; [created_at] and
    [updated_at] are two successive readings of the clock, so that
    [created_at <= updated_at] when the clock never goes back. *)
Theorem create_owner_issues_fresh_id (rs : list Request) (payload : OwnerCreate) :
  uuid4_unique ->
  clock_monotone ->
  exists o w',
    create_owner payload (snd (run rs initial)) = (Ok o, w') /\
    owner_id o = uuid4_at (uuid_calls (snd (run rs initial))) /\
    ~ In (owner_id o) (issued_owner_ids rs (fst (run rs initial))) /\
    created_at o = utcnow_at (clock_calls (snd (run rs initial))) /\
    updated_at o = utcnow_at (S (clock_calls (snd (run rs initial)))) /\
    (created_at o <= updated_at o)%Z.
Proof.
  intros Huniq Hmono. exec. do 2 eexists. split; [reflexivity|]. simpl.
  split; [reflexivity|]. split.
  - intros Hin. apply (proj2 (run_issued rs initial)) in Hin as (i & Hi & Heq).
    apply Huniq in Heq. lia.
  - repeat split. apply Hmono. lia.
Qed.


(** ** Not found *)

(** X1: for an id that is not a key of [OWNERS], the GET, PATCH and DELETE
    handlers of an Owner raise 404 "Owner not found" and leave the whole
    state as it was; [patch_owner] does not even read the clock. *)
Theorem owner_not_found (oid : UUID) (payload : OwnerUpdate) (w : World) :
  Dict.get oid (OWNERS w) = None ->
  get_owner oid w = (Raise (HTTPException 404 "Owner not found"), w) /\
  patch_owner oid payload w = (Raise (HTTPException 404 "Owner not found"), w) /\
  delete_owner oid w = (Raise (HTTPException 404 "Owner not found"), w).
Proof.
  intros Hget. pose proof (proj2 (mem_false _ _) Hget) as Hmem.
  exec. rewrite Hget, Hmem. auto.
Qed.

(** X2: for an id that is not a key of [PETS], the GET, PATCH and DELETE
    handlers of a Pet raise 404 "Pet not found" and leave the whole state as
    it was. *)
Theorem pet_not_found (pid : UUID) (payload : PetUpdate) (w : World) :
  Dict.get pid (PETS w) = None ->
  get_pet pid w = (Raise (HTTPException 404 "Pet not found"), w) /\
  patch_pet pid payload w = (Raise (HTTPException 404 "Pet not found"), w) /\
  delete_pet pid w = (Raise (HTTPException 404 "Pet not found"), w).
Proof.
  intros Hget. pose proof (proj2 (mem_false _ _) Hget) as Hmem.
  exec. rewrite Hget, Hmem. auto.
Qed.

(** ** DELETE /pets/{id} *)

(** X3: deleting a stored Pet succeeds; afterwards GET and a second DELETE
    of that id raise 404, every other Pet is still stored, and [OWNERS] is
    untouched, so the [pets] lists held by the stored Owners are not
    refreshed. *)
Theorem delete_pet_removes_one (pid : UUID) (pet : PetRead) (w : World) :
  Dict.get pid (PETS w) = Some pet ->
  exists w',
    delete_pet pid w = (Ok tt, w') /\
    get_pet pid w' = (Raise (HTTPException 404 "Pet not found"), w') /\
    delete_pet pid w' = (Raise (HTTPException 404 "Pet not found"), w') /\
    (forall pid', pid' <> pid -> Dict.get pid' (PETS w') = Dict.get pid' (PETS w)) /\
    OWNERS w' = OWNERS w.
Proof.
  intros Hget. assert (Hmem : Dict.mem pid (PETS w) = true).
  { apply mem_true. eauto. }
  exec. rewrite Hmem. simpl. eexists. split; [reflexivity|].
  exec. unfold Dict.mem. rewrite get_del_same. simpl.
  repeat split. intros pid' Hne. apply get_del_other. congruence.
Qed.

(** ** Errors *)

(** X4: a request that raises, whatever the error, leaves both dictionaries
    exactly as they were. *)
Theorem failed_request_changes_nothing (r : Request) (w : World) (e : Error) :
  fst (handle r w) = Raise e ->
  OWNERS (snd (handle r w)) = OWNERS w /\ PETS (snd (handle r w)) = PETS w.
Proof.
  destruct r; simpl; exec; try discriminate; auto.
  - destruct (Dict.get oid (OWNERS w)); simpl; auto. discriminate.
  - destruct (Dict.get oid (OWNERS w)); simpl; auto.
    destruct (OwnerRead_validate _); simpl; auto. discriminate.
  - destruct (Dict.mem oid (OWNERS w)); simpl; auto. discriminate.
  - destruct (Dict.mem (pc_owner_id payload) (OWNERS w)); simpl; auto. discriminate.
  - destruct (Dict.get pid (PETS w)); simpl; auto.
  - destruct (Dict.get pid (PETS w)); simpl; auto. discriminate.
  - destruct (Dict.mem pid (PETS w)); simpl; auto. discriminate.
Qed.

(** X5: the HTTP errors a request can raise.  POST /owners, GET /owners and
    GET /pets never raise.  A status 501 comes from a PUT and only from a
    PUT, a status 400 only from POST /pets, and every other
    [HTTPException] is a 404. *)
Theorem http_errors_by_route (r : Request) (w : World) :
  match r with
  | POST_owners _ | GET_owners | GET_pets =>
      exists body, fst (handle r w) = Ok body
  | PUT_owner _ | PUT_pet _ =>
      fst (handle r w) = Raise (HTTPException 501 "Not implemented")
  | POST_pets _ =>
      forall c d, fst (handle r w) = Raise (HTTPException c d) ->
                  c = 400%Z /\ d = "owner_id does not exist"
  | GET_owner _ | PATCH_owner _ _ | DELETE_owner _ =>
      forall c d, fst (handle r w) = Raise (HTTPException c d) ->
                  c = 404%Z /\ d = "Owner not found"
  | GET_pet _ | PATCH_pet _ _ | DELETE_pet _ =>
      forall c d, fst (handle r w) = Raise (HTTPException c d) ->
                  c = 404%Z /\ d = "Pet not found"
  end.
Proof.
  destruct r; simpl; exec; eauto.
  - intros c d. destruct (Dict.get oid (OWNERS w)); simpl; [discriminate|].
    intros [= <- <-]. auto.
  - intros c d. destruct (Dict.get oid (OWNERS w)); simpl.
    + destruct (OwnerRead_validate _); simpl; discriminate.
    + intros [= <- <-]. auto.
  - intros c d. destruct (Dict.mem oid (OWNERS w)); simpl; [discriminate|].
    intros [= <- <-]. auto.
  - intros c d. destruct (Dict.mem (pc_owner_id payload) (OWNERS w)); simpl;
      [discriminate|]. intros [= <- <-]. auto.
  - intros c d. destruct (Dict.get pid (PETS w)); simpl; [discriminate|].
    intros [= <- <-]. auto.
  - intros c d. destruct (Dict.get pid (PETS w)); simpl; [discriminate|].
    intros [= <- <-]. auto.
  - intros c d. destruct (Dict.mem pid (PETS w)); simpl; [discriminate|].
    intros [= <- <-]. auto.
Qed.

(** X6: a PATCH of a stored Owner whose payload sets [first_name],
    [last_name] or [phone] to null raises the validation error of
    [OwnerRead] instead of an [HTTPException]; nothing is stored, but the
    clock has been read once. *)
Theorem patch_owner_null_required
    (oid : UUID) (owner : OwnerRead) (payload : OwnerUpdate) (w : World) :
  Dict.get oid (OWNERS w) = Some owner ->
  required_null payload ->
  patch_owner oid payload w = (Raise ValidationError, tick w).
Proof.
  intros Hget Hnull. exec. rewrite Hget. simpl.
  unfold OwnerRead_validate. simpl.
  destruct Hnull as [H|[H|H]]; rewrite H; simpl.
  - reflexivity.
  - destruct (merge _ _); reflexivity.
  - destruct (merge _ _); [destruct (merge _ _)|]; reflexivity.
Qed.

(** ** More facts about dictionaries *)

Section MoreDictFacts.

Context {V : Type}.
Implicit Types (d : Dict.t V) (k : UUID) (v : V).

Lemma set_set k v v' d : Dict.set k v' (Dict.set k v d) = Dict.set k v' d.
Proof.
  induction d as [|[k0 v0] d IH]; simpl.
  - now rewrite N.eqb_refl.
  - destruct (N.eqb k k0) eqn:E; simpl.
    + now rewrite N.eqb_refl.
    + now rewrite E, IH.
Qed.

Lemma set_fresh k v d : Dict.get k d = None -> Dict.set k v d = d ++ [(k, v)].
Proof.
  induction d as [|[k0 v0] d IH]; simpl; auto.
  destruct (N.eqb k k0); [discriminate|]. intros H. now rewrite IH.
Qed.

Lemma get_map_values {W : Type} (g : V -> W) k d :
  Dict.get k (map (fun kv => (fst kv, g (snd kv))) d) = option_map g (Dict.get k d).
Proof.
  induction d as [|[k0 v0] d IH]; simpl; auto.
  destruct (N.eqb k k0); auto.
Qed.

Lemma In_values_set k v d : In v (Dict.values (Dict.set k v d)).
Proof.
  unfold Dict.values. induction d as [|[k0 v0] d IH]; simpl; auto.
  destruct (N.eqb k k0); simpl; auto.
Qed.

Lemma get_values k v d : Dict.get k d = Some v -> In v (Dict.values d).
Proof.
  intros H. apply get_In in H. unfold Dict.values.
  change v with (snd (k, v)). now apply in_map.
Qed.

Lemma keys_get_None k d : ~ In k (Dict.keys d) -> Dict.get k d = None.
Proof.
  induction d as [|[k0 v0] d IH]; simpl; auto.
  intros H. destruct (N.eqb k k0) eqn:E.
  - apply N.eqb_eq in E. subst. tauto.
  - apply IH. tauto.
Qed.

Lemma get_keys k v d : Dict.get k d = Some v -> In k (Dict.keys d).
Proof.
  intros H. apply get_In in H. change k with (fst (k, v)). now apply in_map.
Qed.

Lemma mem_set_mono k k' v d :
  Dict.mem k d = true -> Dict.mem k (Dict.set k' v d) = true.
Proof.
  unfold Dict.mem. destruct (N.eq_dec k' k) as [->|Hne].
  - now rewrite get_set_same.
  - now rewrite get_set_other.
Qed.

Lemma In_keys_set k k' v d :
  In k (Dict.keys (Dict.set k' v d)) -> k = k' \/ In k (Dict.keys d).
Proof.
  unfold Dict.keys. intros H. apply in_map_iff in H as [x [<- H]].
  apply In_set in H as [->|H]; auto. right. now apply in_map.
Qed.

Lemma In_keys_del k k' d :
  In k (Dict.keys (Dict.del k' d)) -> In k (Dict.keys d).
Proof.
  unfold Dict.keys, Dict.del. intros H. apply in_map_iff in H as [x [<- H]].
  apply filter_In in H as [H _]. now apply in_map.
Qed.

Lemma In_keys_del_all (ks : list UUID) k d :
  In k (Dict.keys (fold_left (fun d k => Dict.del k d) ks d)) -> In k (Dict.keys d).
Proof.
  unfold Dict.keys. intros H. apply in_map_iff in H as [x [<- H]].
  apply In_del_all in H. now apply in_map.
Qed.

Lemma In_del_all_not (ks : list UUID) d x :
  In x (fold_left (fun d k => Dict.del k d) ks d) -> ~ In (fst x) ks.
Proof.
  revert d. induction ks as [|k ks IH]; simpl; auto.
  intros d H [Heq|Hin].
  - apply In_del_all in H. apply filter_In in H as [_ H].
    subst k. now rewrite N.eqb_refl in H.
  - now apply IH in H.
Qed.

End MoreDictFacts.

(** ** Reads *)

(** X7: GET of an Owner is not read-only: the returned Owner, with its
    [pets] freshly assigned, replaces the stored one.  The other Owners and
    [PETS] are unchanged, and repeating the request returns the same Owner
    and changes nothing more. *)
Theorem get_owner_writes_back (oid : UUID) (w w' : World) (o : OwnerRead) :
  get_owner oid w = (Ok o, w') ->
  Dict.get oid (OWNERS w') = Some o /\
  (forall k, k <> oid -> Dict.get k (OWNERS w') = Dict.get k (OWNERS w)) /\
  PETS w' = PETS w /\
  get_owner oid w' = (Ok o, w').
Proof.
  exec. destruct (Dict.get oid (OWNERS w)) as [owner|] eqn:Hget; simpl;
    [|discriminate].
  intros [= <- <-]. simpl. split; [apply get_set_same|].
  split; [intros k Hne; apply get_set_other; congruence|].
  split; [reflexivity|].
  exec. rewrite get_set_same. simpl. now rewrite set_set.
Qed.

(** X8: GET /owners and GET /owners/{id} agree.  [list_owners] always
    returns; for every key of [OWNERS] the Owner that [get_owner] returns is
    an element of the list, and is what [list_owners] leaves stored under
    that key. *)
Theorem list_owners_agrees_with_get_owner (w : World) :
  exists os w2,
    list_owners w = (Ok os, w2) /\
    forall oid owner,
      Dict.get oid (OWNERS w) = Some owner ->
      exists o w1,
        get_owner oid w = (Ok o, w1) /\
        In o os /\
        Dict.get oid (OWNERS w2) = Some o.
Proof.
  exec. do 2 eexists. split; [reflexivity|]. simpl.
  intros oid owner Hget. rewrite Hget. simpl.
  do 2 eexists. split; [reflexivity|].
  assert (Hstored :
    Dict.get oid
      (map (fun kv => (fst kv,
                       set_pets (snd kv) (pets_of (owner_id (snd kv)) (PETS w))))
           (OWNERS w))
    = Some (set_pets owner (pets_of (owner_id owner) (PETS w)))).
  { rewrite (get_map_values
               (fun o => set_pets o (pets_of (owner_id o) (PETS w)))).
    now rewrite Hget. }
  split; [|exact Hstored].
  now apply get_values in Hstored.
Qed.

(** X9: POST /owners followed by GET of the returned id.  The Owner read
    back has the fields of the payload and the [id], [created_at] and
    [updated_at] that POST returned, but its [pets] are the Pets of [PETS]
    with that [owner_id]: the list supplied by the client is gone after the
    first read. *)
Theorem create_owner_then_get_owner (payload : OwnerCreate) (w : World) :
  exists o w1 o' w2,
    create_owner payload w = (Ok o, w1) /\
    get_owner (owner_id o) w1 = (Ok o', w2) /\
    same_but_pets o' o /\
    first_name o' = oc_first_name payload /\
    last_name o' = oc_last_name payload /\
    phone o' = oc_phone payload /\
    email o' = oc_email payload /\
    birth_date o' = oc_birth_date payload /\
    pets o' = map StoredPet
                (filter (fun p => N.eqb (pet_owner_id p) (owner_id o))
                        (Dict.values (PETS w))).
Proof.
  exec. do 4 eexists. split; [reflexivity|]. simpl.
  rewrite get_set_same. simpl. split; [reflexivity|].
  unfold same_but_pets. simpl. repeat split.
Qed.

(** X10: POST /pets for a stored Owner, followed by reads.  GET of the new
    Pet's id returns the Pet that POST returned, and GET of its Owner
    returns an Owner whose [pets] contain that Pet. *)
Theorem create_pet_then_reads (payload : PetCreate) (owner : OwnerRead) (w : World) :
  Dict.get (pc_owner_id payload) (OWNERS w) = Some owner ->
  owner_id owner = pc_owner_id payload ->
  exists pet w1 o w2,
    create_pet payload w = (Ok pet, w1) /\
    get_pet (pet_id pet) w1 = (Ok pet, w1) /\
    get_owner (pc_owner_id payload) w1 = (Ok o, w2) /\
    In (StoredPet pet) (pets o).
Proof.
  intros Hget Hid. assert (Hmem : Dict.mem (pc_owner_id payload) (OWNERS w) = true).
  { apply mem_true. eauto. }
  exec. rewrite Hmem. simpl. do 4 eexists. split; [reflexivity|].
  exec. rewrite get_set_same. split; [reflexivity|].
  rewrite Hget. simpl. split; [reflexivity|]. simpl.
  unfold pets_of. apply in_map. apply filter_In. split.
  - apply In_values_set.
  - simpl. rewrite Hid. apply N.eqb_refl.
Qed.

(** ** Referential integrity *)

Lemma mem_map_values {V W : Type} (g : V -> W) (k : UUID) (d : Dict.t V) :
  Dict.mem k (map (fun kv => (fst kv, g (snd kv))) d) = Dict.mem k d.
Proof.
  unfold Dict.mem. rewrite get_map_values. now destruct (Dict.get k d).
Qed.

Lemma refs_ok_set_owner (k : UUID) (o : OwnerRead) (os : Dict.t OwnerRead)
    (ps : Dict.t PetRead) :
  Forall (fun kv => Dict.mem (pet_owner_id (snd kv)) os = true) ps ->
  Forall (fun kv => Dict.mem (pet_owner_id (snd kv)) (Dict.set k o os) = true) ps.
Proof.
  apply Forall_impl. intros kv. apply mem_set_mono.
Qed.

Lemma handle_refs_ok (r : Request) (w : World) :
  keeps_owner r -> refs_ok w -> refs_ok (snd (handle r w)).
Proof.
  unfold refs_ok. intros Hkeep Hrefs.
  destruct r; simpl; exec; auto.
  - now apply refs_ok_set_owner.
  - revert Hrefs. apply Forall_impl. intros kv H.
    now rewrite (mem_map_values
                   (fun o => set_pets o (pets_of (owner_id o) (PETS w)))).
  - destruct (Dict.get oid (OWNERS w)); simpl; auto.
    now apply refs_ok_set_owner.
  - destruct (Dict.get oid (OWNERS w)); simpl; auto.
    destruct (OwnerRead_validate _); simpl; auto.
    now apply refs_ok_set_owner.
  - destruct (Dict.mem oid (OWNERS w)); simpl; auto.
    apply Forall_forall. intros [k p] Hin. simpl.
    pose proof (In_del_all_not _ _ _ Hin) as Hnot.
    apply In_del_all in Hin.
    assert (Hne : pet_owner_id p <> oid).
    { intros Heq. apply Hnot. simpl.
      apply in_map_iff. exists (k, p). split; [reflexivity|].
      apply filter_In. split; [exact Hin|]. simpl. now apply N.eqb_eq. }
    unfold Dict.mem. rewrite get_del_other by congruence.
    exact (proj1 (Forall_forall _ _) Hrefs (k, p) Hin).
  - destruct (Dict.mem (pc_owner_id payload) (OWNERS w)) eqn:Hmem; simpl; auto.
    apply Forall_set; auto.
  - destruct (Dict.get pid (PETS w)); simpl; auto.
  - destruct (Dict.get pid (PETS w)) as [pet|] eqn:Hget; simpl; auto.
    apply Forall_set; auto. simpl. simpl in Hkeep. rewrite Hkeep.
    exact (Forall_get _ _ _ _ Hrefs Hget).
  - destruct (Dict.mem pid (PETS w)); simpl; auto.
    now apply Forall_del.
Qed.

(** X11: as long as no PATCH of a Pet supplies [owner_id], no Pet ever
    dangles: after any such sequence of requests the [owner_id] of every
    stored Pet is a key of [OWNERS]. *)
Theorem no_dangling_pet_without_owner_patch (rs : list Request) :
  Forall keeps_owner rs -> refs_ok (snd (run rs initial)).
Proof.
  assert (Hgen : forall w, Forall keeps_owner rs -> refs_ok w ->
                           refs_ok (snd (run rs w))).
  { induction rs as [|r rs IH]; intros w Hall Hw; [exact Hw|].
    inversion Hall; subst. rewrite snd_run_cons.
    apply IH; auto. now apply handle_refs_ok. }
  intros Hall. apply Hgen; auto. constructor.
Qed.

(** X12: the cascade of DELETE on an Owner is complete.  After
    [delete_owner] has returned, no stored Pet has the deleted id as
    [owner_id], the other Owners are stored as before, and a second DELETE
    of the same id raises 404. *)
Theorem delete_owner_leaves_no_orphan (oid : UUID) (w : World) :
  Dict.mem oid (OWNERS w) = true ->
  exists w',
    delete_owner oid w = (Ok tt, w') /\
    Forall (fun kv => pet_owner_id (snd kv) <> oid) (PETS w') /\
    (forall k, k <> oid -> Dict.get k (OWNERS w') = Dict.get k (OWNERS w)) /\
    delete_owner oid w' = (Raise (HTTPException 404 "Owner not found"), w').
Proof.
  intros Hmem. exec. rewrite Hmem. simpl. eexists. split; [reflexivity|].
  simpl. split; [|split].
  - apply Forall_forall. intros [k p] Hin Hown. simpl in Hown.
    pose proof (In_del_all_not _ _ _ Hin) as Hnot. apply Hnot.
    apply In_del_all in Hin. simpl.
    apply in_map_iff. exists (k, p). split; [reflexivity|].
    apply filter_In. split; [exact Hin|]. simpl. now apply N.eqb_eq.
  - intros k Hne. apply get_del_other. congruence.
  - unfold Dict.mem. now rewrite get_del_same.
Qed.

(** X13: requests on Pets never touch [OWNERS], so the [pets] list a stored
    Owner holds is not refreshed by them; requests on Owners other than
    DELETE never touch [PETS]. *)
Theorem routes_keep_the_other_dictionary (r : Request) (w : World) :
  (pet_route r = true -> OWNERS (snd (handle r w)) = OWNERS w) /\
  (owner_route_but_delete r = true -> PETS (snd (handle r w)) = PETS w).
Proof.
  split; destruct r; simpl; try discriminate; intros _; exec; auto.
  - destruct (Dict.mem (pc_owner_id payload) (OWNERS w)); reflexivity.
  - destruct (Dict.get pid (PETS w)); reflexivity.
  - destruct (Dict.get pid (PETS w)); reflexivity.
  - destruct (Dict.mem pid (PETS w)); reflexivity.
  - destruct (Dict.get oid (OWNERS w)); reflexivity.
  - destruct (Dict.get oid (OWNERS w)); simpl; auto.
    destruct (OwnerRead_validate _); reflexivity.
Qed.

(** X14: GET /pets and GET /pets/{id} agree and are read-only.
    [list_pets] returns the values of [PETS] in dictionary order and leaves
    the state as it was; a Pet is in that list exactly when [get_pet]
    returns it for some id. *)
Theorem list_pets_agrees_with_get_pet (w : World) :
  Dict.wf (PETS w) ->
  exists ps,
    list_pets w = (Ok ps, w) /\
    ps = map snd (PETS w) /\
    forall p, In p ps <-> exists pid, get_pet pid w = (Ok p, w).
Proof.
  intros Hwf. exec. eexists. split; [reflexivity|]. split; [reflexivity|].
  intros p. split.
  - intros Hin. apply in_map_iff in Hin as [[k p'] [Heq Hin]].
    simpl in Heq. subst p'. exists k. exec.
    now rewrite (In_get _ _ _ Hwf Hin).
  - intros [pid Hrun]. revert Hrun. exec.
    destruct (Dict.get pid (PETS w)) as [p'|] eqn:Hget; [|discriminate].
    intros [= ->]. now apply get_values in Hget.
Qed.

(** ** Identifiers drawn from [uuid4] *)

Lemma handle_keys (r : Request) (w : World) :
  (forall k, In k (Dict.keys (OWNERS (snd (handle r w)))) ->
     In k (Dict.keys (OWNERS w)) \/
     (k = uuid4_at (uuid_calls w) /\
      (uuid_calls w < uuid_calls (snd (handle r w)))%nat /\
      exists p, r = POST_owners p)) /\
  (forall k, In k (Dict.keys (PETS (snd (handle r w)))) ->
     In k (Dict.keys (PETS w)) \/
     (k = uuid4_at (uuid_calls w) /\
      (uuid_calls w < uuid_calls (snd (handle r w)))%nat /\
      exists p, r = POST_pets p)).
Proof.
  destruct r; simpl; exec; split; intros k Hin; auto.
  - apply In_keys_set in Hin as [->|Hin]; auto.
    right. split; [reflexivity|]. split; [lia|eauto].
  - left. now rewrite keys_map_snd in Hin.
  - destruct (Dict.get oid (OWNERS w)) as [owner|] eqn:Hget; simpl in *; auto.
    apply In_keys_set in Hin as [->|Hin]; auto. left. eapply get_keys, Hget.
  - destruct (Dict.get oid (OWNERS w)); simpl in *; auto.
  - destruct (Dict.get oid (OWNERS w)) as [owner|] eqn:Hget; simpl in *; auto.
    destruct (OwnerRead_validate _); simpl in *; auto.
    apply In_keys_set in Hin as [->|Hin]; auto. left. eapply get_keys, Hget.
  - destruct (Dict.get oid (OWNERS w)); simpl in *; auto.
    destruct (OwnerRead_validate _); simpl in *; auto.
  - destruct (Dict.mem oid (OWNERS w)); simpl in *; auto.
    left. eapply In_keys_del, Hin.
  - destruct (Dict.mem oid (OWNERS w)); simpl in *; auto.
    left. eapply In_keys_del_all, Hin.
  - destruct (Dict.mem (pc_owner_id payload) (OWNERS w)); simpl in *; auto.
  - destruct (Dict.mem (pc_owner_id payload) (OWNERS w)); simpl in *; auto.
    apply In_keys_set in Hin as [->|Hin]; auto.
    right. split; [reflexivity|]. split; [lia|eauto].
  - destruct (Dict.get pid (PETS w)); simpl in *; auto.
  - destruct (Dict.get pid (PETS w)); simpl in *; auto.
  - destruct (Dict.get pid (PETS w)); simpl in *; auto.
  - destruct (Dict.get pid (PETS w)) as [pet|] eqn:Hget; simpl in *; auto.
    apply In_keys_set in Hin as [->|Hin]; auto. left. eapply get_keys, Hget.
  - destruct (Dict.mem pid (PETS w)); simpl in *; auto.
  - destruct (Dict.mem pid (PETS w)); simpl in *; auto.
    left. eapply In_keys_del, Hin.
Qed.

Lemma drawn_later (n m : nat) (k : UUID) :
  (n <= m)%nat -> drawn n k -> drawn m k.
Proof.
  intros Hle (i & Hi & ->). exists i. split; [lia|reflexivity].
Qed.

Lemma handle_keys_drawn (r : Request) (w : World) :
  keys_drawn w -> keys_drawn (snd (handle r w)).
Proof.
  intros [Ho Hp]. pose proof (handle_uuid_calls r w) as Hle.
  destruct (handle_keys r w) as [Hko Hkp].
  split; apply Forall_forall; intros k Hin.
  - apply Hko in Hin as [Hin|(-> & Hlt & _)].
    + eapply drawn_later; [exact Hle|].
      exact (proj1 (Forall_forall _ _) Ho k Hin).
    + exists (uuid_calls w). auto.
  - apply Hkp in Hin as [Hin|(-> & Hlt & _)].
    + eapply drawn_later; [exact Hle|].
      exact (proj1 (Forall_forall _ _) Hp k Hin).
    + exists (uuid_calls w). auto.
Qed.

Lemma run_keys_drawn (rs : list Request) : keys_drawn (snd (run rs initial)).
Proof.
  apply run_invariant; [apply handle_keys_drawn|]. split; constructor.
Qed.

Lemma next_uuid_not_drawn (n : nat) :
  uuid4_unique -> ~ drawn n (uuid4_at n).
Proof.
  intros Huniq (i & Hi & Heq). apply Huniq in Heq. lia.
Qed.

Lemma handle_ids_disjoint (r : Request) (w : World) :
  uuid4_unique -> keys_drawn w -> ids_disjoint w ->
  ids_disjoint (snd (handle r w)).
Proof.
  intros Huniq [Ho Hp] Hdis k Hin Hin'.
  destruct (handle_keys r w) as [Hko Hkp].
  apply Hko in Hin as [Hin|(-> & _ & po & Hr)];
    apply Hkp in Hin' as [Hin'|(Hk & _ & pp & Hr')].
  - exact (Hdis k Hin Hin').
  - subst k. apply (next_uuid_not_drawn (uuid_calls w) Huniq).
    exact (proj1 (Forall_forall _ _) Ho _ Hin).
  - apply (next_uuid_not_drawn (uuid_calls w) Huniq).
    exact (proj1 (Forall_forall _ _) Hp _ Hin').
  - congruence.
Qed.

(** X15: if [uuid4] never returns the same value twice then, after any
    sequence of requests, no id is both the key of an Owner and the key of a
    Pet. *)
Theorem owner_and_pet_ids_never_shared (rs : list Request) :
  uuid4_unique -> ids_disjoint (snd (run rs initial)).
Proof.
  intros Huniq.
  enough (H : keys_drawn (snd (run rs initial)) /\ ids_disjoint (snd (run rs initial)))
    by apply H.
  apply (run_invariant (fun w => keys_drawn w /\ ids_disjoint w)).
  - intros r w [Hd Hdis]. split.
    + now apply handle_keys_drawn.
    + now apply handle_ids_disjoint.
  - split; [split; constructor|]. intros k [].
Qed.

(** X16: if [uuid4] never returns the same value twice then, after any
    sequence of requests, a creation never overwrites.  The Owner created by
    POST /owners is added at the end of [OWNERS] with every earlier entry
    kept, and so is the Pet created by a POST /pets that names a stored
    Owner, at the end of [PETS]. *)
Theorem creation_appends (rs : list Request) (w : World) :
  uuid4_unique ->
  w = snd (run rs initial) ->
  (forall payload, exists o w',
     create_owner payload w = (Ok o, w') /\
     OWNERS w' = OWNERS w ++ [(owner_id o, o)]) /\
  (forall payload,
     Dict.mem (pc_owner_id payload) (OWNERS w) = true ->
     exists pet w',
       create_pet payload w = (Ok pet, w') /\
       PETS w' = PETS w ++ [(pet_id pet, pet)]).
Proof.
  intros Huniq ->. destruct (run_keys_drawn rs) as [Ho Hp].
  set (w := snd (run rs initial)) in *.
  pose proof (next_uuid_not_drawn (uuid_calls w) Huniq) as Hnew.
  split.
  - intros payload. exec. do 2 eexists. split; [reflexivity|]. simpl.
    apply set_fresh, keys_get_None. intros Hin. apply Hnew.
    exact (proj1 (Forall_forall _ _) Ho _ Hin).
  - intros payload Hmem. exec. rewrite Hmem. simpl.
    do 2 eexists. split; [reflexivity|]. simpl.
    apply set_fresh, keys_get_None. intros Hin. apply Hnew.
    exact (proj1 (Forall_forall _ _) Hp _ Hin).
Qed.

End Handlers.

(** ** The theorems at work

    From here on [uuid4] returns [0], [1], [2], ... and the clock reads
    [0], [1], [2], ... unless stated otherwise. *)

Ltac nodup :=
  vm_compute;
  repeat (apply NoDup_cons; [simpl; intuition discriminate|]);
  apply NoDup_nil.

(** Deleting Owner [0] of two households: Boba (Pet [1]) is gone and Rex
    (Pet [3], of Owner [2]) stays. *)
Lemma delete_owner_cascades_witness :
  exists w',
    delete_owner 0%N (two_households N.of_nat Z.of_nat) = (Ok tt, w') /\
    Dict.get 0%N (OWNERS w') = None /\
    get_pet 1%N w' = (Raise (HTTPException 404 "Pet not found"), w') /\
    exists p, Dict.get 3%N (PETS w') = Some p /\ pet_name p = "Rex".
Proof.
  destruct (delete_owner_cascades 0%N (two_households N.of_nat Z.of_nat))
    as (w' & Hdel & Hgone & H404 & Hkept).
  - nodup.
  - reflexivity.
  - exists w'. split; [exact Hdel|]. split; [exact Hgone|]. split.
    + eapply H404; [vm_compute; reflexivity | reflexivity].
    + eexists. split; [|shelve].
      eapply Hkept; [vm_compute; reflexivity | simpl; discriminate].
      Unshelve. reflexivity.
Defined.

(** [POST /pets] for Owner [0]: refused before any Owner exists, accepted
    once Ada is stored. *)
Lemma create_pet_checks_owner_witness :
  create_pet N.of_nat Z.of_nat boba initial =
    (Raise (HTTPException 400 "owner_id does not exist"), initial) /\
  exists pet w',
    create_pet N.of_nat Z.of_nat boba (after_ada N.of_nat Z.of_nat) = (Ok pet, w') /\
    pet_owner_id pet = 0%N /\
    Dict.get (pet_id pet) (PETS w') = Some pet.
Proof.
  split.
  - apply (proj1 (create_pet_checks_owner N.of_nat Z.of_nat boba initial)).
    reflexivity.
  - destruct (proj2 (create_pet_checks_owner N.of_nat Z.of_nat boba
                       (after_ada N.of_nat Z.of_nat)))
      as (pet & w' & Hrun & Hown & _ & _ & Hget & _).
    + reflexivity.
    + exists pet, w'. repeat split; assumption.
Defined.

(** Ada was created with a client-supplied [pets] entry with id [7]; once
    Boba is stored, [GET /owners/0] reports Boba and not that entry. *)
Lemma owner_reads_report_live_pets_witness :
  exists o w',
    get_owner 0%N (after_ada_boba N.of_nat Z.of_nat) = (Ok o, w') /\
    pets o = [StoredPet {| pet_owner_id := 0%N; pet_name := "Boba";
                           pet_species := "Cat"; pet_id := 1%N;
                           pet_created_at := 2%Z; pet_updated_at := 3%Z |}].
Proof.
  destruct (proj1 (owner_reads_report_live_pets (after_ada_boba N.of_nat Z.of_nat))
              0%N
              {| first_name := "Ada"; last_name := "Lovelace";
                 phone := "+1-212-555-0199"; email := Some "ada@example.com";
                 birth_date := None; pets := [ClientPet boba_summary];
                 owner_id := 0%N; created_at := 0%Z; updated_at := 1%Z |})
    as (o & w' & Hrun & Hid & Hpets & _).
  - reflexivity.
  - exists o, w'. split; [exact Hrun|].
    rewrite Hpets, Hid. reflexivity.
Defined.

(** Moving Boba to the unknown Owner [99] is accepted. *)
Lemma patch_pet_accepts_unknown_owner_witness :
  exists pet' w',
    patch_pet Z.of_nat 1%N move_to_99 (after_ada_boba N.of_nat Z.of_nat) = (Ok pet', w') /\
    pet_owner_id pet' = 99%N /\
    Dict.get 1%N (PETS w') = Some pet' /\
    Dict.mem (pet_owner_id pet') (OWNERS w') = false.
Proof.
  eapply (patch_pet_accepts_unknown_owner Z.of_nat 1%N move_to_99
            (after_ada_boba N.of_nat Z.of_nat)).
  - vm_compute. reflexivity.
  - reflexivity.
  - reflexivity.
Defined.

(** The state after Ada and Boba were created has its records under their
    ids, and so has the state after a further PATCH. *)
Lemma handle_keeps_keys_match_witness :
  keys_match (after_ada_boba N.of_nat Z.of_nat) /\
  keys_match (snd (handle N.of_nat Z.of_nat (PATCH_owner 0%N rename_byron)
                     (after_ada_boba N.of_nat Z.of_nat))).
Proof.
  assert (H : keys_match (after_ada_boba N.of_nat Z.of_nat)).
  { split; vm_compute; repeat constructor. }
  split; [exact H|].
  apply handle_keeps_keys_match. exact H.
Defined.

(** Create, patch twice, delete: the timestamps stay ordered. *)
Lemma updated_at_never_before_created_at_witness :
  timestamps_ordered
    (snd (run N.of_nat Z.of_nat
            [POST_owners ada; POST_pets boba; PATCH_owner 0%N rename_byron;
             PATCH_pet 1%N move_to_99; POST_pets rex; DELETE_pet 1%N]
            initial)).
Proof.
  apply updated_at_never_before_created_at.
  intros i j Hij. lia.
Defined.

(** [{"last_name": "Byron"}] on Ada, and [{"owner_id": 99}] on Boba. *)
Lemma patch_overwrites_supplied_fields_only_witness :
  (exists o' w',
     patch_owner Z.of_nat 0%N rename_byron (after_ada_boba N.of_nat Z.of_nat) = (Ok o', w') /\
     first_name o' = "Ada" /\ last_name o' = "Byron" /\
     created_at o' = 0%Z /\ (1 <= updated_at o')%Z) /\
  (exists pet' w',
     patch_pet Z.of_nat 1%N move_to_99 (after_ada_boba N.of_nat Z.of_nat) = (Ok pet', w') /\
     pet_owner_id pet' = 99%N /\ pet_name pet' = "Boba" /\
     pet_created_at pet' = 2%Z /\ (3 <= pet_updated_at pet')%Z).
Proof.
  destruct (patch_overwrites_supplied_fields_only N.of_nat Z.of_nat
              [POST_owners ada; POST_pets boba]
              (after_ada_boba N.of_nat Z.of_nat))
    as [Howner Hpet].
  - intros i j Hij. lia.
  - reflexivity.
  - split.
    + destruct (Howner 0%N
                  {| first_name := "Ada"; last_name := "Lovelace";
                     phone := "+1-212-555-0199"; email := Some "ada@example.com";
                     birth_date := None; pets := [ClientPet boba_summary];
                     owner_id := 0%N; created_at := 0%Z; updated_at := 1%Z |}
                  rename_byron)
        as (o' & w' & Hrun & _ & Hf & Hl & _ & _ & _ & _ & Hc & _ & Hu).
      * reflexivity.
      * repeat split; discriminate.
      * exists o', w'. simpl in *.
        injection Hf as Hf. injection Hl as Hl. repeat split; assumption.
    + destruct (Hpet 1%N
                  {| pet_owner_id := 0%N; pet_name := "Boba"; pet_species := "Cat";
                     pet_id := 1%N; pet_created_at := 2%Z; pet_updated_at := 3%Z |}
                  move_to_99)
        as (pet' & w' & Hrun & _ & Ho & Hn & _ & _ & Hc & Hu).
      * reflexivity.
      * exists pet', w'. simpl in *. repeat split; assumption.
Defined.

(** A third Owner created after two others gets an id of its own. *)
Lemma create_owner_issues_fresh_id_witness :
  exists o w',
    create_owner N.of_nat Z.of_nat ada
      (snd (run N.of_nat Z.of_nat [POST_owners ada; POST_pets boba; POST_owners ada] initial))
      = (Ok o, w') /\
    owner_id o = 3%N /\
    ~ In (owner_id o) [0%N; 2%N] /\
    (created_at o <= updated_at o)%Z.
Proof.
  destruct (create_owner_issues_fresh_id N.of_nat Z.of_nat
              [POST_owners ada; POST_pets boba; POST_owners ada] ada)
    as (o & w' & Hrun & Hid & Hfresh & _ & _ & Hle).
  - intros i j Heq. lia.
  - intros i j Hij. lia.
  - exists o, w'. repeat split; assumption.
Defined.

(** ** Where the code departs from the stated properties *)

(** C3 as stated fails.  An empty update of Ada, who was created with a
    client-supplied [pets] entry, returns her with [pets] emptied, although
    [pets] was not supplied; the update [{"first_name": null}] is a payload
    for which PATCH raises and overwrites nothing; and when the clock goes
    back, the new [updated_at] is before the old one. *)
Lemma patch_owner_frame_counterexample :
  (exists owner o' w',
     Dict.get 0%N (OWNERS (after_ada N.of_nat Z.of_nat)) = Some owner /\
     patch_owner Z.of_nat 0%N no_change (after_ada N.of_nat Z.of_nat) = (Ok o', w') /\
     pets owner = [ClientPet boba_summary] /\
     pets o' = [] /\
     pets o' <> pets owner) /\
  patch_owner Z.of_nat 0%N null_first_name (after_ada N.of_nat Z.of_nat) =
    (Raise ValidationError,
     {| OWNERS := OWNERS (after_ada N.of_nat Z.of_nat);
        PETS := PETS (after_ada N.of_nat Z.of_nat);
        uuid_calls := 1; clock_calls := 3 |}) /\
  (exists owner o' w',
     Dict.get 0%N (OWNERS (after_ada N.of_nat (fun n => (- Z.of_nat n)%Z))) = Some owner /\
     patch_owner (fun n => (- Z.of_nat n)%Z) 0%N no_change
       (after_ada N.of_nat (fun n => (- Z.of_nat n)%Z)) = (Ok o', w') /\
     (updated_at o' < updated_at owner)%Z).
Proof.
  split; [|split].
  - do 3 eexists. split; [vm_compute; reflexivity|]. split; [vm_compute; reflexivity|].
    split; [vm_compute; reflexivity|]. split; [vm_compute; reflexivity|]. discriminate.
  - reflexivity.
  - do 3 eexists. split; [vm_compute; reflexivity|]. split; [vm_compute; reflexivity|].
    vm_compute. reflexivity.
Qed.

(** C4 as stated fails.  With a clock that advances between two readings,
    the Owner returned by [POST /owners] has [created_at <> updated_at];
    and [create_owner] does not compare the id it draws with the ids in
    use, so when [uuid4] repeats a value the id is one issued before. *)
Lemma create_owner_timestamps_counterexample :
  (exists o w',
     create_owner N.of_nat Z.of_nat ada initial = (Ok o, w') /\
     created_at o = 0%Z /\ updated_at o = 1%Z /\
     created_at o <> updated_at o) /\
  (exists o w',
     create_owner (fun _ => 5%N) Z.of_nat ada
       (snd (run (fun _ => 5%N) Z.of_nat [POST_owners ada] initial)) = (Ok o, w') /\
     In (owner_id o)
        (issued_owner_ids [POST_owners ada]
           (fst (run (fun _ => 5%N) Z.of_nat [POST_owners ada] initial)))).
Proof.
  split.
  - do 2 eexists. split; [vm_compute; reflexivity|]. split; [vm_compute; reflexivity|].
    split; [vm_compute; reflexivity|]. discriminate.
  - do 2 eexists. split; [vm_compute; reflexivity|]. simpl. now left.
Qed.

(** ** Further properties at work *)

(** No Owner has id [5] after Ada and Boba were created. *)
Lemma owner_not_found_witness :
  get_owner 5%N (after_ada_boba N.of_nat Z.of_nat) =
    (Raise (HTTPException 404 "Owner not found"), after_ada_boba N.of_nat Z.of_nat) /\
  patch_owner Z.of_nat 5%N rename_byron (after_ada_boba N.of_nat Z.of_nat) =
    (Raise (HTTPException 404 "Owner not found"), after_ada_boba N.of_nat Z.of_nat) /\
  delete_owner 5%N (after_ada_boba N.of_nat Z.of_nat) =
    (Raise (HTTPException 404 "Owner not found"), after_ada_boba N.of_nat Z.of_nat).
Proof.
  apply (owner_not_found Z.of_nat 5%N rename_byron (after_ada_boba N.of_nat Z.of_nat)).
  reflexivity.
Defined.

(** Nor has any Pet. *)
Lemma pet_not_found_witness :
  get_pet 5%N (after_ada_boba N.of_nat Z.of_nat) =
    (Raise (HTTPException 404 "Pet not found"), after_ada_boba N.of_nat Z.of_nat) /\
  patch_pet Z.of_nat 5%N rename_bobby (after_ada_boba N.of_nat Z.of_nat) =
    (Raise (HTTPException 404 "Pet not found"), after_ada_boba N.of_nat Z.of_nat) /\
  delete_pet 5%N (after_ada_boba N.of_nat Z.of_nat) =
    (Raise (HTTPException 404 "Pet not found"), after_ada_boba N.of_nat Z.of_nat).
Proof.
  apply (pet_not_found Z.of_nat 5%N rename_bobby (after_ada_boba N.of_nat Z.of_nat)).
  reflexivity.
Defined.

(** Deleting Boba from two households leaves Rex. *)
Lemma delete_pet_removes_one_witness :
  exists w',
    delete_pet 1%N (two_households N.of_nat Z.of_nat) = (Ok tt, w') /\
    get_pet 1%N w' = (Raise (HTTPException 404 "Pet not found"), w') /\
    Dict.get 3%N (PETS w') = Dict.get 3%N (PETS (two_households N.of_nat Z.of_nat)).
Proof.
  destruct (delete_pet_removes_one 1%N
              {| pet_owner_id := 0%N; pet_name := "Boba"; pet_species := "Cat";
                 pet_id := 1%N; pet_created_at := 2%Z; pet_updated_at := 3%Z |}
              (two_households N.of_nat Z.of_nat))
    as (w' & Hdel & Hget & _ & Hother & _).
  - reflexivity.
  - exists w'. split; [exact Hdel|]. split; [exact Hget|].
    apply Hother. discriminate.
Defined.

(** A refused POST /pets stores nothing. *)
Lemma failed_request_changes_nothing_witness :
  OWNERS (snd (handle N.of_nat Z.of_nat (POST_pets rex) (after_ada_boba N.of_nat Z.of_nat)))
    = OWNERS (after_ada_boba N.of_nat Z.of_nat) /\
  PETS (snd (handle N.of_nat Z.of_nat (POST_pets rex) (after_ada_boba N.of_nat Z.of_nat)))
    = PETS (after_ada_boba N.of_nat Z.of_nat).
Proof.
  apply (failed_request_changes_nothing N.of_nat Z.of_nat (POST_pets rex)
           (after_ada_boba N.of_nat Z.of_nat)
           (HTTPException 400 "owner_id does not exist")).
  reflexivity.
Defined.

(** DELETE of an unknown Pet raises a 404. *)
Lemma http_errors_by_route_witness :
  fst (handle N.of_nat Z.of_nat (DELETE_pet 5%N) initial) =
    Raise (HTTPException 404 "Pet not found") /\
  (404 = 404)%Z /\ "Pet not found" = "Pet not found".
Proof.
  split; [reflexivity|].
  apply (http_errors_by_route N.of_nat Z.of_nat (DELETE_pet 5%N) initial
           404%Z "Pet not found").
  reflexivity.
Defined.

(** [{"first_name": null}] on Ada. *)
Lemma patch_owner_null_required_witness :
  patch_owner Z.of_nat 0%N null_first_name (after_ada N.of_nat Z.of_nat) =
    (Raise ValidationError, tick (after_ada N.of_nat Z.of_nat)).
Proof.
  apply (patch_owner_null_required Z.of_nat 0%N
           {| first_name := "Ada"; last_name := "Lovelace";
              phone := "+1-212-555-0199"; email := Some "ada@example.com";
              birth_date := None; pets := [ClientPet boba_summary];
              owner_id := 0%N; created_at := 0%Z; updated_at := 1%Z |}).
  - reflexivity.
  - left. reflexivity.
Defined.

(** Reading Ada once Boba is stored. *)
Lemma get_owner_writes_back_witness :
  exists o w',
    get_owner 0%N (after_ada_boba N.of_nat Z.of_nat) = (Ok o, w') /\
    (Dict.get 0%N (OWNERS w') = Some o /\
     (forall k, k <> 0%N ->
        Dict.get k (OWNERS w') = Dict.get k (OWNERS (after_ada_boba N.of_nat Z.of_nat))) /\
     PETS w' = PETS (after_ada_boba N.of_nat Z.of_nat) /\
     get_owner 0%N w' = (Ok o, w')).
Proof.
  do 2 eexists. split; [vm_compute; reflexivity|].
  apply (get_owner_writes_back 0%N (after_ada_boba N.of_nat Z.of_nat)).
  vm_compute. reflexivity.
Defined.

(** Owner [2] of two households is in the listing. *)
Lemma list_owners_agrees_with_get_owner_witness :
  exists os o,
    fst (list_owners (two_households N.of_nat Z.of_nat)) = Ok os /\
    fst (get_owner 2%N (two_households N.of_nat Z.of_nat)) = Ok o /\
    In o os.
Proof.
  destruct (list_owners_agrees_with_get_owner (two_households N.of_nat Z.of_nat))
    as (os & w2 & Hlist & Hall).
  destruct (Hall 2%N
              {| first_name := "Ada"; last_name := "Lovelace";
                 phone := "+1-212-555-0199"; email := Some "ada@example.com";
                 birth_date := None; pets := [ClientPet boba_summary];
                 owner_id := 2%N; created_at := 4%Z; updated_at := 5%Z |})
    as (o & w1 & Hget & Hin & _).
  - reflexivity.
  - exists os, o. rewrite Hlist, Hget. repeat split. exact Hin.
Defined.

(** The scenario of the API description: create Ada, create Boba for her,
    read both back. *)
Lemma create_pet_then_reads_witness :
  exists pet w1 o w2,
    create_pet N.of_nat Z.of_nat boba (after_ada N.of_nat Z.of_nat) = (Ok pet, w1) /\
    get_pet (pet_id pet) w1 = (Ok pet, w1) /\
    get_owner 0%N w1 = (Ok o, w2) /\
    In (StoredPet pet) (pets o).
Proof.
  apply (create_pet_then_reads N.of_nat Z.of_nat boba
           {| first_name := "Ada"; last_name := "Lovelace";
              phone := "+1-212-555-0199"; email := Some "ada@example.com";
              birth_date := None; pets := [ClientPet boba_summary];
              owner_id := 0%N; created_at := 0%Z; updated_at := 1%Z |}
           (after_ada N.of_nat Z.of_nat)).
  - reflexivity.
  - reflexivity.
Defined.

(** Creating, renaming a Pet and deleting its Owner leave no dangling
    Pet. *)
Lemma no_dangling_pet_without_owner_patch_witness :
  refs_ok
    (snd (run N.of_nat Z.of_nat
            [POST_owners ada; POST_pets boba; POST_owners ada; POST_pets rex;
             PATCH_pet 1%N rename_bobby; DELETE_owner 0%N]
            initial)).
Proof.
  apply no_dangling_pet_without_owner_patch.
  repeat constructor.
Defined.

(** Deleting Owner [0] of two households. *)
Lemma delete_owner_leaves_no_orphan_witness :
  exists w',
    delete_owner 0%N (two_households N.of_nat Z.of_nat) = (Ok tt, w') /\
    Forall (fun kv => pet_owner_id (snd kv) <> 0%N) (PETS w') /\
    Dict.get 2%N (OWNERS w') = Dict.get 2%N (OWNERS (two_households N.of_nat Z.of_nat)).
Proof.
  destruct (delete_owner_leaves_no_orphan 0%N (two_households N.of_nat Z.of_nat))
    as (w' & Hdel & Hnone & Hother & _).
  - reflexivity.
  - exists w'. split; [exact Hdel|]. split; [exact Hnone|].
    apply Hother. discriminate.
Defined.

(** Moving Boba does not touch [OWNERS]; reading Ada does not touch
    [PETS]. *)
Lemma routes_keep_the_other_dictionary_witness :
  OWNERS (snd (handle N.of_nat Z.of_nat (PATCH_pet 1%N move_to_99)
                 (after_ada_boba N.of_nat Z.of_nat)))
    = OWNERS (after_ada_boba N.of_nat Z.of_nat) /\
  PETS (snd (handle N.of_nat Z.of_nat (GET_owner 0%N)
               (after_ada_boba N.of_nat Z.of_nat)))
    = PETS (after_ada_boba N.of_nat Z.of_nat).
Proof.
  split.
  - apply (proj1 (routes_keep_the_other_dictionary N.of_nat Z.of_nat
                    (PATCH_pet 1%N move_to_99) (after_ada_boba N.of_nat Z.of_nat))).
    reflexivity.
  - apply (proj2 (routes_keep_the_other_dictionary N.of_nat Z.of_nat
                    (GET_owner 0%N) (after_ada_boba N.of_nat Z.of_nat))).
    reflexivity.
Defined.

(** The Pets of two households, listed. *)
Lemma list_pets_agrees_with_get_pet_witness :
  exists ps,
    list_pets (two_households N.of_nat Z.of_nat) =
      (Ok ps, two_households N.of_nat Z.of_nat) /\
    List.length ps = 2%nat.
Proof.
  destruct (list_pets_agrees_with_get_pet (two_households N.of_nat Z.of_nat))
    as (ps & Hlist & Hps & _).
  - nodup.
  - exists ps. split; [exact Hlist|]. rewrite Hps. reflexivity.
Defined.

(** Owner ids and Pet ids of two households. *)
Lemma owner_and_pet_ids_never_shared_witness :
  ids_disjoint (two_households N.of_nat Z.of_nat).
Proof.
  apply (owner_and_pet_ids_never_shared N.of_nat Z.of_nat
           [POST_owners ada; POST_pets boba; POST_owners ada; POST_pets rex]).
  intros i j Heq. lia.
Defined.

(** A third Owner and a third Pet join two households at the end. *)
Lemma creation_appends_witness :
  (exists o w',
     create_owner N.of_nat Z.of_nat ada (two_households N.of_nat Z.of_nat) = (Ok o, w') /\
     OWNERS w' = OWNERS (two_households N.of_nat Z.of_nat) ++ [(owner_id o, o)]) /\
  (exists pet w',
     create_pet N.of_nat Z.of_nat rex (two_households N.of_nat Z.of_nat) = (Ok pet, w') /\
     PETS w' = PETS (two_households N.of_nat Z.of_nat) ++ [(pet_id pet, pet)]).
Proof.
  destruct (creation_appends N.of_nat Z.of_nat
              [POST_owners ada; POST_pets boba; POST_owners ada; POST_pets rex]
              (two_households N.of_nat Z.of_nat))
    as [Howner Hpet].
  - intros i j Heq. lia.
  - reflexivity.
  - split; [apply Howner|]. apply Hpet. reflexivity.
Defined.
